(** * Parsley: the [useLogDownloader] hook and [initializeSentry]

    A shallow embedding of
    - [src/hooks/useLogDownloader/index.ts]: the React hook that owns one
      streaming log download per URL, and
    - [src/components/ErrorHandling/Sentry.tsx]: [initializeSentry].

    JavaScript numbers that hold byte counts and millisecond clocks are
    integers here ([Z]); the hook only ever adds and subtracts them.  The
    hook's state cells, React's copy of them (which stops following the
    setters when the component is unmounted), the calls the hook makes to its
    collaborators (toast, analytics, error reporting, breadcrumbs) and the
    table of fetch attempts are threaded through a small state monad. *)

From Stdlib Require Import ZArith Lia.
From stdpp Require Import base option list strings gmap.

Local Open Scope Z_scope.
Local Open Scope string_scope.

(** ** Values handed to the collaborators *)

(** A JavaScript [Error]: only [name] and [message] are read. *)
Record JsError := mkJsError { err_name : string; err_message : string }.

(** [new Error(msg)] *)
Definition new_Error (msg : string) : JsError :=
  {| err_name := "Error"; err_message := msg |}.

(** [SentryBreadcrumb.HTTP] and [SentryBreadcrumb.Error]. *)
Inductive SentryBreadcrumb := SentryBreadcrumb_HTTP | SentryBreadcrumb_Error.

(** The three object literals given to [leaveBreadcrumb]. *)
Inductive BreadcrumbData :=
| BcStart (url : string)
| BcFailed (duration : Z) (err : JsError) (fileSize : Z) (url : string)
| BcFinished (fileSize : string) (time : Z) (url : string).

(** The [metadata] objects given to [reportError]. *)
Inductive ReportMetadata :=
| MdIncomplete (incompleteDownloadError : option JsError) (url : string)
| MdTrimmed (trimmedLines : Z) (url : string).

(** The second argument of [reportError], when there is one. *)
Record ErrorMetadata := mkErrorMetadata {
  md_message : string;
  md_metadata : ReportMetadata;
  md_name : string }.

(** The parts of the hook's surroundings whose declarations live in other
    modules of the repository ([constants/enums], [constants/errors],
    [constants/logs], [utils/environmentVariables], [utils/string]): they are
    taken as they come.  [LogTypes] is an enum the hook only passes on. *)
Record Config := mkConfig {
  LogTypes : Type;
  isProduction : bool;
  LOG_FILE_SIZE_LIMIT : Z;
  LOG_FILE_DOWNLOAD_TOO_LARGE_WARNING : string;
  LOG_LINE_TOO_LARGE_WARNING : string;
  getBytesAsString : Z -> string }.

Section Hook.

Context {cfg : Config}.

(** The three analytics events the hook sends. *)
Inductive AnalyticsEvent :=
| LogDownloadIncomplete (downloaded duration : Z) (reason : string)
| LogDownloadFailed (duration fileSize : Z) (type : LogTypes cfg)
| LogDownloaded (duration fileSize : Z) (type : LogTypes cfg).

(** The [name] field of an event. *)
Definition event_name (e : AnalyticsEvent) : string :=
  match e with
  | LogDownloadIncomplete _ _ _ => "Log Download Incomplete"
  | LogDownloadFailed _ _ _ => "Log Download Failed"
  | LogDownloaded _ _ _ => "Log Downloaded"
  end.

(** Every call the hook makes, to a state setter or to a collaborator, in
    the order it is made. *)
Inductive Call :=
| CallSetData (v : list string)
| CallSetError (v : string)
| CallSetFileSize (v : Z)
| CallSetIsLoading (v : bool)
| CallLeaveBreadcrumb (msg : string) (d : BreadcrumbData)
    (ty : SentryBreadcrumb)
| CallReportWarning (err : JsError) (md : option ErrorMetadata)
| CallToastWarning (msg : string) (closable shouldTimeout : bool)
    (title : string)
| CallSendEvent (e : AnalyticsEvent).

(** ** The hook's state *)

(** The four cells of [useState] / [useStateRef], with their initial values
    ([undefined], [undefined], [0], [false]). *)
Record HookState := mkHookState {
  data : option (list string);
  error : option string;
  fileSize : Z;
  isLoading : bool }.

Definition initial_state : HookState :=
  {| data := None; error := None; fileSize := 0; isLoading := false |}.

(** One call of [fetchLogFile]: what the closures of the effect captured
    ([url], [logType], [timeStart]), the options it was given, and where the
    returned promise stands. *)
Inductive AttemptStatus := InFlight | Cancelled | Settled.

#[global] Instance AttemptStatus_eq_dec : EqDecision AttemptStatus.
Proof. solve_decision. Defined.

Record Attempt := mkAttempt {
  a_url : string;
  a_logType : LogTypes cfg;
  a_timeStart : Z;
  a_abortController : option nat;
  a_downloadSizeLimit : Z;
  a_status : AttemptStatus }.

(** The effect that is currently installed: its dependency ([url]) and the
    [AbortController] its cleanup closes over. *)
Record Effect := mkEffect { eff_url : string; eff_abortController : nat }.

(** [hook] holds the cells as the hook's own code writes and reads them: the
    value each setter was last called with and, for [fileSize], the ref of
    [useStateRef] that [getFileSize] reads.  [returned] is React's copy, what
    the hook returns to its component: React applies a setter call while the
    component is mounted and drops it afterwards, so [returned] follows
    [hook] until teardown and then stays as it is. *)
Record World := mkWorld {
  hook : HookState;
  returned : HookState;
  calls : list Call;
  attempts : list Attempt;
  controllers : nat;
  aborted : list nat;
  effect : option Effect;
  unmounted : bool }.

Definition initial_world : World :=
  {| hook := initial_state; returned := initial_state; calls := [];
     attempts := []; controllers := 0%nat;
     aborted := []; effect := None; unmounted := false |}.

(** ** A state monad over [World] *)

Definition M (A : Type) : Type := World -> A * World.

#[local] Instance M_ret : MRet M := fun A (a : A) w => (a, w).
#[local] Instance M_bind : MBind M :=
  fun A B (k : A -> M B) (m : M A) w => let (a, w') := m w in k a w'.

Definition exec {A} (m : M A) (w : World) : World := snd (m w).

Definition with_hook (f : HookState -> HookState) (c : Call) : M unit :=
  fun w => (tt, {| hook := f (hook w);
                   returned :=
                     if unmounted w then returned w else f (returned w);
                   calls := calls w ++ [c];
                   attempts := attempts w; controllers := controllers w;
                   aborted := aborted w; effect := effect w;
                   unmounted := unmounted w |}).

Definition call (c : Call) : M unit := with_hook (fun h => h) c.

Definition setData (v : list string) : M unit :=
  with_hook (fun h => {| data := Some v; error := error h;
                         fileSize := fileSize h; isLoading := isLoading h |})
            (CallSetData v).

Definition setError (v : string) : M unit :=
  with_hook (fun h => {| data := data h; error := Some v;
                         fileSize := fileSize h; isLoading := isLoading h |})
            (CallSetError v).

Definition setIsLoading (v : bool) : M unit :=
  with_hook (fun h => {| data := data h; error := error h;
                         fileSize := fileSize h; isLoading := v |})
            (CallSetIsLoading v).

(** Modelled from the spec: [useStateRef] of [hooks/useStateRef], the
    state-plus-ref pattern of the design notes: the setter stores the value
    and the getter reads the latest stored value, also from inside
    asynchronous callbacks. *)
Definition setFileSize (v : Z) : M unit :=
  with_hook (fun h => {| data := data h; error := error h;
                         fileSize := v; isLoading := isLoading h |})
            (CallSetFileSize v).

(** Modelled from the spec: the getter of [useStateRef], see [setFileSize]. *)
Definition getFileSize : M Z := fun w => (fileSize (hook w), w).

Definition leaveBreadcrumb (msg : string) (d : BreadcrumbData)
    (ty : SentryBreadcrumb) : M unit :=
  call (CallLeaveBreadcrumb msg d ty).

(** [reportError(err, md).warning()] *)
Definition reportError_warning (err : JsError) (md : option ErrorMetadata)
    : M unit :=
  call (CallReportWarning err md).

(** [dispatchToast.warning(msg, closable, { shouldTimeout, title })] *)
Definition dispatchToast_warning (msg : string) (closable shouldTimeout : bool)
    (title : string) : M unit :=
  call (CallToastWarning msg closable shouldTimeout title).

Definition sendEvent (e : AnalyticsEvent) : M unit := call (CallSendEvent e).

(** ** The callbacks and promise handlers of one attempt

    [a] carries what the closures captured; [now] is [Date.now()] at the
    time the handler runs. *)

(** [onIncompleteDownload: (reason, incompleteDownloadError) => ...] *)
Definition onIncompleteDownload (a : Attempt) (now : Z) (reason : string)
    (incompleteDownloadError : option JsError) : M unit :=
  reportError_warning (new_Error "Incomplete download")
    (Some {| md_message := reason;
             md_metadata := MdIncomplete incompleteDownloadError (a_url a);
             md_name := "Log download incomplete" |}) ;;
  dispatchToast_warning (LOG_FILE_DOWNLOAD_TOO_LARGE_WARNING cfg) true false
    "Log not fully downloaded" ;;
  downloaded ← getFileSize ;
  sendEvent (LogDownloadIncomplete downloaded (now - a_timeStart a) reason).

(** [onProgress: (progress) => setFileSize(getFileSize() + progress)] *)
Definition onProgress (progress : Z) : M unit :=
  size ← getFileSize ;
  setFileSize (size + progress).

(** The last element is compared with the empty string and popped when it
    is one: [if (logs[logs.length - 1] === ...) logs.pop()].  On an empty
    array the index is out of range, the read gives [undefined] and nothing
    is popped. *)
Definition pop_if_last_empty (logs : list string) : list string :=
  if decide (last logs = Some EmptyString) then removelast logs else logs.

(** The handler given to [.then]: [({ result: logs, trimmedLines }) => ...].
    A number is truthy when it is not zero. *)
Definition onFulfilled (a : Attempt) (now : Z) (logs : list string)
    (trimmedLines : Z) : M unit :=
  setData (pop_if_last_empty logs) ;;
  if decide (trimmedLines = 0) then mret tt
  else
    downloaded ← getFileSize ;
    sendEvent (LogDownloadIncomplete downloaded (now - a_timeStart a)
                 "Log line size limit exceeded") ;;
    reportError_warning (new_Error "Incomplete download")
      (Some {| md_message := "Log line size limit exceeded";
               md_metadata := MdTrimmed trimmedLines (a_url a);
               md_name := "Log download incomplete" |}) ;;
    dispatchToast_warning (LOG_LINE_TOO_LARGE_WARNING cfg) true false
      "Log not fully downloaded".

(** The handler given to [.catch]: [(err: Error) => ...]. *)
Definition onRejected (a : Attempt) (now : Z) (err : JsError) : M unit :=
  size ← getFileSize ;
  leaveBreadcrumb "useLogDownloader"
    (BcFailed (now - a_timeStart a) err size (a_url a))
    SentryBreadcrumb_Error ;;
  reportError_warning err None ;;
  setError (err_message err) ;;
  size' ← getFileSize ;
  sendEvent (LogDownloadFailed (now - a_timeStart a) size' (a_logType a)).

(** The handler given to [.finally]. *)
Definition onFinally (a : Attempt) (now : Z) : M unit :=
  size ← getFileSize ;
  leaveBreadcrumb "useLogDownloader"
    (BcFinished (getBytesAsString cfg size) (now - a_timeStart a) (a_url a))
    SentryBreadcrumb_HTTP ;;
  size' ← getFileSize ;
  sendEvent (LogDownloaded (now - a_timeStart a) size' (a_logType a)) ;;
  setIsLoading false.

(** ** The effect *)

(** The hook's parameter object; [downloadSizeLimit] is optional. *)
Record UseLogDownloader := mkProps {
  downloadSizeLimit : option Z;
  logType : LogTypes cfg;
  url : string }.

(** [new AbortController()]: a fresh controller, not aborted. *)
Definition new_AbortController : M nat :=
  fun w => (controllers w,
            {| hook := hook w; returned := returned w; calls := calls w;
               attempts := attempts w;
               controllers := S (controllers w); aborted := aborted w;
               effect := effect w; unmounted := unmounted w |}).

Definition set_attempts (f : list Attempt -> list Attempt) : M unit :=
  fun w => (tt, {| hook := hook w; returned := returned w; calls := calls w;
                   attempts := f (attempts w);
                   controllers := controllers w; aborted := aborted w;
                   effect := effect w; unmounted := unmounted w |}).

(** [fetchLogFile(url, { abortController, downloadSizeLimit, ... })]: a new
    attempt is in flight; its callbacks and handlers are the ones above. *)
Definition fetchLogFile (a : Attempt) : M unit :=
  set_attempts (fun l => (l ++ [a])%list).

Definition with_status (st : AttemptStatus) (a : Attempt) : Attempt :=
  {| a_url := a_url a; a_logType := a_logType a; a_timeStart := a_timeStart a;
     a_abortController := a_abortController a;
     a_downloadSizeLimit := a_downloadSizeLimit a; a_status := st |}.

(** Modelled from the spec: [fetchLogFile] of [utils/fetchLogFile] seeing its
    signal aborted (section 4.1, step 4): an attempt that was handed this
    controller and is still in flight stops reading and will fail with a
    cancellation failure.  An attempt that was handed no controller cannot
    see the signal. *)
Definition signal_aborted (c : nat) (a : Attempt) : Attempt :=
  match a_status a with
  | InFlight =>
      if decide (a_abortController a = Some c) then with_status Cancelled a
      else a
  | _ => a
  end.

(** [abortController.abort()] *)
Definition abort (c : nat) : M unit :=
  fun w => (tt, {| hook := hook w; returned := returned w; calls := calls w;
                   attempts := signal_aborted c <$> attempts w;
                   controllers := controllers w; aborted := c :: aborted w;
                   effect := effect w; unmounted := unmounted w |}).

(** The body of [useEffect(() => { ... }, [url])], up to the cleanup it
    returns.  A string is truthy when it is not empty; the default of
    [downloadSizeLimit] is [LOG_FILE_SIZE_LIMIT]. *)
Definition useEffect_body (p : UseLogDownloader) (now : Z) : M Effect :=
  leaveBreadcrumb "useLogDownloader" (BcStart (url p)) SentryBreadcrumb_HTTP ;;
  abortController ← new_AbortController ;
  let timeStart := now in
  (if decide (url p = EmptyString) then mret tt
   else
     setIsLoading true ;;
     fetchLogFile
       {| a_url := url p; a_logType := logType p; a_timeStart := timeStart;
          a_abortController :=
            if isProduction cfg then Some abortController else None;
          a_downloadSizeLimit :=
            default (LOG_FILE_SIZE_LIMIT cfg) (downloadSizeLimit p);
          a_status := InFlight |}) ;;
  mret {| eff_url := url p; eff_abortController := abortController |}.

(** The cleanup the effect returns: [() => { abortController.abort() }]. *)
Definition cleanup (e : Effect) : M unit := abort (eff_abortController e).

Definition set_effect (e : option Effect) (u : bool) : M unit :=
  fun w => (tt, {| hook := hook w; returned := returned w; calls := calls w;
                   attempts := attempts w;
                   controllers := controllers w; aborted := aborted w;
                   effect := e; unmounted := u |}).

(** ** What can happen to a hook instance *)

Inductive FetchEvent :=
| Progress (progress : Z)
| IncompleteDownload (reason : string)
    (incompleteDownloadError : option JsError)
| Resolve (result : list string) (trimmedLines : Z)
| Reject (err : JsError).

Inductive Event :=
| Render (p : UseLogDownloader) (now : Z)
| Unmount
| Fetch (id : nat) (ev : FetchEvent) (now : Z).

(** React's part: running the effect installs the cleanup it returned. *)
Definition run_effect (p : UseLogDownloader) (now : Z) : M unit :=
  e ← useEffect_body p now ;
  set_effect (Some e) false.

(** React's part: the first render runs the effect; a later render runs the
    previous cleanup and then the effect again when [url] differs from the
    dependency of the installed effect, and nothing otherwise. *)
Definition render (p : UseLogDownloader) (now : Z) (w : World) : option World :=
  if unmounted w then None
  else
    match effect w with
    | None => Some (exec (run_effect p now) w)
    | Some e0 =>
        if decide (eff_url e0 = url p) then Some w
        else Some (exec (cleanup e0 ;; run_effect p now) w)
    end.

(** React's part: unmounting runs the cleanup of the installed effect. *)
Definition unmount (w : World) : option World :=
  if unmounted w then None
  else
    match effect w with
    | None => None
    | Some e0 => Some (exec (cleanup e0 ;; set_effect None true) w)
    end.

(** [fetchLogFile(...).then(onFulfilled).catch(onRejected).finally(onFinally)]:
    a fulfilled promise runs [onFulfilled] and then [onFinally], a rejected one
    [onRejected] and then [onFinally].  The collaborators are calls that
    return, so [onFulfilled] does not throw into [onRejected].  The handlers
    of one promise run as consecutive jobs, with no other event in between. *)
Definition settle (id : nat) (a : Attempt) (now : Z)
    (outcome : list string * Z + JsError) : M unit :=
  match outcome with
  | inl (logs, trimmedLines) => onFulfilled a now logs trimmedLines
  | inr err => onRejected a now err
  end ;;
  onFinally a now ;;
  set_attempts (fun l => <[id := with_status Settled a]> l).

(** Modelled from the spec: what [fetchLogFile] of [utils/fetchLogFile] may
    do to its observer: while in flight it may report progress, report an
    incomplete download, resolve or reject; once its signal was aborted it
    only rejects (cancellation is always an error outcome); a settled promise
    does nothing more. *)
Definition fetch_event (id : nat) (ev : FetchEvent) (now : Z) (w : World)
    : option World :=
  a ← attempts w !! id ;
  match a_status a, ev with
  | InFlight, Progress progress => Some (exec (onProgress progress) w)
  | InFlight, IncompleteDownload reason e =>
      Some (exec (onIncompleteDownload a now reason e) w)
  | InFlight, Resolve logs trimmedLines =>
      Some (exec (settle id a now (inl (logs, trimmedLines))) w)
  | InFlight, Reject err => Some (exec (settle id a now (inr err)) w)
  | Cancelled, Reject err => Some (exec (settle id a now (inr err)) w)
  | _, _ => None
  end.

Definition step (w : World) (ev : Event) : option World :=
  match ev with
  | Render p now => render p now w
  | Unmount => unmount w
  | Fetch id ev now => fetch_event id ev now w
  end.

(** A history of the instance, from a given world; [None] when some event
    could not have happened there. *)
Fixpoint run (w : World) (evs : list Event) : option World :=
  match evs with
  | [] => Some w
  | ev :: evs' => w' ← step w ev ; run w' evs'
  end.

End Hook.

Arguments AnalyticsEvent : clear implicits.
Arguments Call : clear implicits.
Arguments Attempt : clear implicits.
Arguments World : clear implicits.
Arguments M : clear implicits.
Arguments UseLogDownloader : clear implicits.
Arguments Event : clear implicits.
Arguments initial_world : clear implicits.

(** ** Observations on worlds and histories *)

Section Observations.

Context {cfg : Config}.

(** The attempts whose promise is pending and whose fetch is still reading. *)
Definition in_flight (w : World cfg) : list (Attempt cfg) :=
  filter (fun a => a_status a = InFlight) (attempts w).

(** The status of every attempt, oldest first. *)
Definition statuses (w : World cfg) : list AttemptStatus :=
  a_status <$> attempts w.

(** The attempts whose promise has settled and whose handlers have run. *)
Definition settled (w : World cfg) : list (Attempt cfg) :=
  filter (fun a => a_status a = Settled) (attempts w).

Definition count_calls (f : Call cfg -> bool) (l : list (Call cfg)) : nat :=
  length (List.filter f l).

Definition is_LogDownloaded (c : Call cfg) : bool :=
  match c with CallSendEvent (LogDownloaded _ _ _) => true | _ => false end.

Definition is_setIsLoading (b : bool) (c : Call cfg) : bool :=
  match c with CallSetIsLoading v => Bool.eqb v b | _ => false end.

Definition is_setData (c : Call cfg) : bool :=
  match c with CallSetData _ => true | _ => false end.

(** Calls the user or the analytics backend can see: a toast or an event. *)
Definition is_toast_or_event (c : Call cfg) : bool :=
  match c with
  | CallToastWarning _ _ _ _ | CallSendEvent _ => true
  | _ => false
  end.

(** The byte count a history event hands to [onProgress]. *)
Definition progress_of (ev : Event cfg) : Z :=
  match ev with Fetch _ (Progress n) _ => n | _ => 0 end.

Definition from_attempt (id : nat) (ev : Event cfg) : bool :=
  match ev with Fetch i _ _ => Nat.eqb i id | _ => false end.

(** The bytes reported by all attempts in a history. *)
Definition delivered (evs : list (Event cfg)) : Z :=
  foldr (fun ev acc => progress_of ev + acc) 0 evs.

(** The bytes reported by attempt [id] in a history. *)
Definition received (id : nat) (evs : list (Event cfg)) : Z :=
  delivered (List.filter (from_attempt id) evs).

(** Attempt [i] belongs to the installed effect: it was handed that effect's
    controller, it fetches the effect's URL, and it is the latest attempt. *)
Definition current (w : World cfg) (i : nat) (a : Attempt cfg) : Prop :=
  exists e, effect w = Some e /\
            a_abortController a = Some (eff_abortController e) /\
            a_url a = eff_url e /\
            S i = length (attempts w).

(** Attempt [a] was handed a controller that has been aborted since, and it
    is not in flight any more. *)
Definition superseded (w : World cfg) (a : Attempt cfg) : Prop :=
  exists c, a_abortController a = Some c /\ c ∈ aborted w /\
            a_status a <> InFlight.

(** What holds of every world a production hook can reach. *)
Definition one_owner (w : World cfg) : Prop :=
  (unmounted w = true -> effect w = None) /\
  forall i a, attempts w !! i = Some a -> current w i a \/ superseded w a.

(** The bookkeeping of a hook instance: one [setIsLoading(true)] per attempt
    started, one [setIsLoading(false)] and one 'Log Downloaded' event per
    attempt settled. *)
Definition balanced (w : World cfg) : Prop :=
  count_calls (is_setIsLoading true) (calls w) = length (attempts w) /\
  count_calls (is_setIsLoading false) (calls w) = length (settled w) /\
  count_calls is_LogDownloaded (calls w) = length (settled w).

(** What holds of a hook that was only ever given the empty URL. *)
Definition quiet (w : World cfg) : Prop :=
  hook w = initial_state /\ attempts w = [] /\
  count_calls is_toast_or_event (calls w) = 0%nat /\
  count_calls (is_setIsLoading true) (calls w) = 0%nat.

(** The history never renders the hook with a URL that is not empty. *)
Definition only_empty_url (evs : list (Event cfg)) : Prop :=
  forall p now, In (Render p now) evs -> url p = EmptyString.

(** ** The calls of each handler, spelled out

    The handler equations below ([settle_rejected], [settle_fulfilled],
    [on_incomplete]) show that these are the calls the handlers make. *)

(** The calls of [onFinally]. *)
Definition finally_calls (a : Attempt cfg) (now size : Z) : list (Call cfg) :=
  [CallLeaveBreadcrumb "useLogDownloader"
     (BcFinished (getBytesAsString cfg size) (now - a_timeStart a) (a_url a))
     SentryBreadcrumb_HTTP;
   CallSendEvent (LogDownloaded (now - a_timeStart a) size (a_logType a));
   CallSetIsLoading false].

(** The calls of [onRejected]. *)
Definition rejected_calls (a : Attempt cfg) (now size : Z) (err : JsError)
    : list (Call cfg) :=
  [CallLeaveBreadcrumb "useLogDownloader"
     (BcFailed (now - a_timeStart a) err size (a_url a)) SentryBreadcrumb_Error;
   CallReportWarning err None;
   CallSetError (err_message err);
   CallSendEvent (LogDownloadFailed (now - a_timeStart a) size (a_logType a))].

(** The calls of [onFulfilled] inside [if (trimmedLines)]. *)
Definition trimmed_calls (a : Attempt cfg) (now size trimmedLines : Z)
    : list (Call cfg) :=
  [CallSendEvent (LogDownloadIncomplete size (now - a_timeStart a)
                    "Log line size limit exceeded");
   CallReportWarning (new_Error "Incomplete download")
     (Some {| md_message := "Log line size limit exceeded";
              md_metadata := MdTrimmed trimmedLines (a_url a);
              md_name := "Log download incomplete" |});
   CallToastWarning (LOG_LINE_TOO_LARGE_WARNING cfg) true false
     "Log not fully downloaded"].

(** The calls of [onIncompleteDownload]. *)
Definition incomplete_calls (a : Attempt cfg) (now size : Z) (reason : string)
    (e : option JsError) : list (Call cfg) :=
  [CallReportWarning (new_Error "Incomplete download")
     (Some {| md_message := reason; md_metadata := MdIncomplete e (a_url a);
              md_name := "Log download incomplete" |});
   CallToastWarning (LOG_FILE_DOWNLOAD_TOO_LARGE_WARNING cfg) true false
     "Log not fully downloaded";
   CallSendEvent (LogDownloadIncomplete size (now - a_timeStart a) reason)].

(** The promise outcome a settling event stands for. *)
Definition outcome_of (ev : FetchEvent) : option (list string * Z + JsError) :=
  match ev with
  | Resolve logs trimmedLines => Some (inl (logs, trimmedLines))
  | Reject err => Some (inr err)
  | _ => None
  end.

(** The fetch events that settle the promise of an attempt in a given
    status. *)
Definition settles (st : AttemptStatus) (ev : FetchEvent) : bool :=
  match st, ev with
  | InFlight, Resolve _ _ | InFlight, Reject _ | Cancelled, Reject _ => true
  | _, _ => false
  end.

(** The events among a list of calls, in order. *)
Definition events_of (l : list (Call cfg))
    : list (AnalyticsEvent cfg) :=
  omap (fun c => match c with CallSendEvent e => Some e | _ => None end) l.

End Observations.

(** ** [initializeSentry] *)

Module Sentry.

(** The object literal given to [init]. *)
Record InitOptions := mkInitOptions {
  debug : bool;
  dsn : string;
  environment : string;
  normalizeDepth : Z }.

Section WithSDK.

(** [S] is whatever the SDK and the environment getters read and write,
    [Exn] the values that can be thrown. *)
Context {S Exn : Type}.

Record Env := mkEnv { sdk : S; console : list (string * Exn) }.

(** A JavaScript computation: it returns a value or throws. *)
Definition J (A : Type) : Type := Env -> (A + Exn) * Env.

#[local] Instance J_ret : MRet J := fun A (a : A) env => (inl a, env).
#[local] Instance J_bind : MBind J :=
  fun A B (k : A -> J B) (m : J A) env =>
    match m env with
    | (inl a, env') => k a env'
    | (inr e, env') => (inr e, env')
    end.

(** [try { body } catch (e) { handler }] *)
Definition try_catch {A} (body : J A) (handler : Exn -> J A) : J A :=
  fun env =>
    match body env with
    | (inl a, env') => (inl a, env')
    | (inr e, env') => handler e env'
    end.

(** [console.error(msg, e)] writes a line and returns. *)
Definition console_error (msg : string) (e : Exn) : J unit :=
  fun env =>
    (inl tt, {| sdk := sdk env; console := console env ++ [(msg, e)] |}).

(** The SDK's [init] and the getters of [utils/environmentVariables], with
    any behaviour: each may return or throw, and change the environment. *)
Variable init : InitOptions -> J unit.
Variable isProduction : J bool.
Variable getSentryDSN : J string.
Variable getReleaseStage : J string.

(** The statement inside [try]; the fields of the literal are evaluated in
    order, and [s || "development"] is ["development"] for the empty string. *)
Definition init_call : J unit :=
  production ← isProduction ;
  sentryDSN ← getSentryDSN ;
  releaseStage ← getReleaseStage ;
  init {| debug := negb production;
          dsn := sentryDSN;
          environment := if decide (releaseStage = EmptyString) then "development"
                         else releaseStage;
          normalizeDepth := 5 |}.

Definition initializeSentry : J unit :=
  try_catch init_call (fun e => console_error "Failed to initialize Sentry" e).

End WithSDK.

End Sentry.

(** ** Two concrete surroundings and histories *)

Definition development : Config :=
  {| LogTypes := string; isProduction := false; LOG_FILE_SIZE_LIMIT := 1000;
     LOG_FILE_DOWNLOAD_TOO_LARGE_WARNING := "The log is too large to download";
     LOG_LINE_TOO_LARGE_WARNING := "A log line is too long";
     getBytesAsString := fun _ => "some bytes" |}.

Definition production : Config :=
  {| LogTypes := string; isProduction := true; LOG_FILE_SIZE_LIMIT := 1000;
     LOG_FILE_DOWNLOAD_TOO_LARGE_WARNING := "The log is too large to download";
     LOG_LINE_TOO_LARGE_WARNING := "A log line is too long";
     getBytesAsString := fun _ => "some bytes" |}.

Definition props (cfg : Config) (t : LogTypes cfg) (u : string)
    : UseLogDownloader cfg :=
  {| downloadSizeLimit := None; logType := t; url := u |}.

Definition AbortError : JsError :=
  {| err_name := "AbortError"; err_message := "The user aborted a request." |}.

Definition NetworkError : JsError :=
  {| err_name := "TypeError"; err_message := "Failed to fetch" |}.

(** The attempt a production hook starts for URL ["a"] at time 0, as the
    fetch sees it while in flight and after its signal was aborted. *)
Definition first_attempt : Attempt production :=
  @mkAttempt production "a" "task" 0 (Some 0%nat) 1000 InFlight.

Definition cancelled_attempt : Attempt production :=
  with_status Cancelled first_attempt.

(** A mounted production hook whose first attempt is in flight. *)
Definition first_attempt_world : World production :=
  Eval vm_compute in
  default (initial_world production)
    (run (initial_world production) [Render (props production "task" "a") 0]).

(** The same hook after the URL changed: the first attempt was cancelled. *)
Definition superseded_world : World production :=
  Eval vm_compute in
  default (initial_world production)
    (run (initial_world production)
       [Render (props production "task" "a") 0;
        Render (props production "task" "b") 1]).

(** In development the URL changes while the first attempt is in flight,
    and then each of the two attempts reports a chunk. *)
Definition overlapping_history : list (Event development) :=
  [Render (props development "task" "a") 0;
   Render (props development "task" "b") 1;
   Fetch 0 (Progress 10) 2;
   Fetch 1 (Progress 5) 3].

(** In production the URL changes while the first attempt is in flight, and
    the cancelled fetch then rejects. *)
Definition superseding_history : list (Event production) :=
  [Render (props production "task" "a") 0;
   Render (props production "task" "b") 1;
   Fetch 0 (Reject AbortError) 2].

(** In production a first log is downloaded, and after the URL changed the
    second attempt reports a chunk. *)
Definition consecutive_history : list (Event production) :=
  [Render (props production "task" "a") 0;
   Fetch 0 (Progress 10) 1;
   Fetch 0 (Resolve ["x"] 0) 2;
   Render (props production "task" "b") 3;
   Fetch 1 (Progress 5) 4].

(** An SDK whose [init] always throws. *)
Definition throwing_init (o : Sentry.InitOptions) : @Sentry.J unit string unit :=
  fun env => (inr ("invalid dsn " +:+ Sentry.dsn o), env).

(** An environment getter that returns [a]. *)
Definition constant {A} (a : A) : @Sentry.J unit string A :=
  fun env => (inl a, env).

(** The hook after [overlapping_history]. *)
Definition overlapped_world : World development :=
  Eval vm_compute in
  default (initial_world development)
    (run (initial_world development) overlapping_history).

Definition empty_console : @Sentry.Env unit string :=
  {| Sentry.sdk := tt; Sentry.console := [] |}.

(** ** Further observations *)

Section MoreObservations.

Context {cfg : Config}.

Definition is_LogDownloadFailed (c : Call cfg) : bool :=
  match c with CallSendEvent (LogDownloadFailed _ _ _) => true | _ => false end.

Definition is_toast (c : Call cfg) : bool :=
  match c with CallToastWarning _ _ _ _ => true | _ => false end.

(** A call is no toast, or it is one of the hook's two warnings: closable,
    without timeout, under the title 'Log not fully downloaded'. *)
Definition known_toast (c : Call cfg) : Prop :=
  match c with
  | CallToastWarning msg closable shouldTimeout title =>
      (msg = LOG_FILE_DOWNLOAD_TOO_LARGE_WARNING cfg \/
       msg = LOG_LINE_TOO_LARGE_WARNING cfg) /\
      closable = true /\ shouldTimeout = false /\
      title = "Log not fully downloaded"
  | _ => True
  end.

(** Whether a render runs the effect: on the first render, and when [url]
    differs from the dependency of the installed effect. *)
Definition effect_runs (w : World cfg) (p : UseLogDownloader cfg) : bool :=
  match effect w with
  | None => true
  | Some e0 => negb (bool_decide (eff_url e0 = url p))
  end.

(** The calls one event adds to the history, read off the handlers. *)
Definition new_calls (w : World cfg) (ev : Event cfg) : list (Call cfg) :=
  let size := fileSize (hook w) in
  match ev with
  | Render p now =>
      if effect_runs w p then
        CallLeaveBreadcrumb "useLogDownloader" (BcStart (url p))
          SentryBreadcrumb_HTTP
        :: (if decide (url p = EmptyString) then [] else [CallSetIsLoading true])
      else []
  | Unmount => []
  | Fetch id fev now =>
      match attempts w !! id with
      | None => []
      | Some a =>
          match fev with
          | Progress n => [CallSetFileSize (size + n)]
          | IncompleteDownload reason e => incomplete_calls a now size reason e
          | Resolve logs trimmedLines =>
              (CallSetData (pop_if_last_empty logs)
               :: (if decide (trimmedLines = 0) then []
                   else trimmed_calls a now size trimmedLines)
               ++ finally_calls a now size)%list
          | Reject err =>
              (rejected_calls a now size err ++ finally_calls a now size)%list
          end
      end
  end.

(** Some attempt has not settled yet. *)
Definition pending (w : World cfg) : Prop :=
  exists i a, attempts w !! i = Some a /\ a_status a <> Settled.

(** No attempt was handed a controller, and none was cancelled. *)
Definition never_signalled (w : World cfg) : Prop :=
  forall i a, attempts w !! i = Some a ->
              a_abortController a = None /\ a_status a <> Cancelled.

(** Controllers are numbered in the order they are made; the aborted ones
    were made earlier, and a cancelled attempt holds an aborted one. *)
Definition aborted_are_old (w : World cfg) : Prop :=
  (forall c, c ∈ aborted w -> (c < controllers w)%nat) /\
  (forall i a, attempts w !! i = Some a -> a_status a = Cancelled ->
     exists c, a_abortController a = Some c /\ c ∈ aborted w).

(** The controller of the installed effect is the latest one made and has
    not been aborted. *)
Definition installed_is_live (w : World cfg) : Prop :=
  forall e, effect w = Some e ->
            (eff_abortController e < controllers w)%nat /\
            eff_abortController e ∉ aborted w.

(** The hook is torn down and no fetch is reading any more. *)
Definition torn_down (w : World cfg) : Prop :=
  unmounted w = true /\
  forall i a, attempts w !! i = Some a -> a_status a <> InFlight.

(** The chunks of attempt [id]: byte counts with the times they arrive. *)
Definition progress_events (id : nat) (chunks : list (Z * Z))
    : list (Event cfg) :=
  (fun c => Fetch id (Progress c.1) c.2) <$> chunks.


(** The bytes of a list of chunks. *)
Definition total (chunks : list (Z * Z)) : Z :=
  foldr (fun c acc => c.1 + acc) 0 chunks.

End MoreObservations.

(** ** [setScope] and [sendError] *)

Module Scope.

Section WithMetadata.

(** [Metadata] is the type of the [{ [key: string]: any }] objects. *)
Context {Metadata : Type}.

(** The calls made on the SDK: on the scope handed to a callback, to
    [captureException], and to [withScope] with what its callback did. *)
#[warnings="-register-all"]
Inductive SdkCall :=
| SetUser (id : option string)
| SetLevel (level : string)
| SetContext (key : string) (context : Metadata)
| CaptureException (err : JsError)
| WithScope (callback : list SdkCall).

(** The browser: [localStorage] and the SDK's call log. *)
Record Browser := mkBrowser {
  localStorage : gmap string string;
  sdk_calls : list SdkCall }.

Definition B (A : Type) : Type := Browser -> A * Browser.

#[local] Instance B_ret : MRet B := fun A (a : A) b => (a, b).
#[local] Instance B_bind : MBind B :=
  fun A B' (k : A -> B B') (m : B A) b => let (a, b') := m b in k a b'.

Definition sdk (c : SdkCall) : B unit :=
  fun b => (tt, {| localStorage := localStorage b;
                   sdk_calls := sdk_calls b ++ [c] |}).

(** [localStorage.getItem(key)]: [null] for a missing key. *)
Definition getItem (key : string) : B (option string) :=
  fun b => (localStorage b !! key, b).

(** [type ScopeOptions = { level?: SeverityLevel; context?: {...} }] *)
Record ScopeOptions := mkScopeOptions {
  level : option string;
  context : option Metadata }.

(** The default [{}] of the second parameter of [setScope]. *)
Definition no_options : ScopeOptions := {| level := None; context := None |}.

(** [setScope(scope, { context, level } = {})].  [x ?? undefined] is [x]
    unless [x] is [null]; a string is truthy when it is not empty, an object
    always. *)
Definition setScope (o : ScopeOptions) : B unit :=
  userId ← getItem "userId" ;
  sdk (SetUser userId) ;;
  match level o with
  | Some l => if decide (l = EmptyString) then mret tt else sdk (SetLevel l)
  | None => mret tt
  end ;;
  match context o with
  | Some c => sdk (SetContext "metadata" c)
  | None => mret tt
  end.

(** [withScope(callback)]: the SDK runs the callback on a scope of its own. *)
Definition withScope (callback : B unit) : B unit :=
  fun b =>
    let (_, b') := callback {| localStorage := localStorage b; sdk_calls := [] |} in
    (tt, {| localStorage := localStorage b';
            sdk_calls := sdk_calls b ++ [WithScope (sdk_calls b')] |}).

(** [sendError(err, severity, metadata?)] *)
Definition sendError (err : JsError) (severity : string)
    (metadata : option Metadata) : B unit :=
  withScope (setScope {| level := Some severity; context := metadata |} ;;
             sdk (CaptureException err)).

(** The [beforeCapture] of [ErrorBoundary]: [(scope) => { setScope(scope) }]. *)
Definition beforeCapture : B unit := setScope no_options.

Definition run_B {A} (m : B A) (b : Browser) : Browser := snd (m b).

End WithMetadata.

Arguments SdkCall : clear implicits.
Arguments Browser : clear implicits.
Arguments ScopeOptions : clear implicits.

End Scope.

(** A browser where user [u42] is logged in. *)
Definition logged_in : Scope.Browser string :=
  {| Scope.localStorage := {["userId" := "u42"]}; Scope.sdk_calls := [] |}.

(** A hook in development whose first attempt was superseded, not cancelled. *)
Definition development_superseded : World development :=
  Eval vm_compute in
  default (initial_world development)
    (run (initial_world development)
       [Render (props development "task" "a") 0;
        Render (props development "task" "b") 1]).

Definition development_first_attempt : Attempt development :=
  @mkAttempt development "a" "task" 0 None 1000 InFlight.



(** A production hook whose first download failed. *)
Definition failed_world : World production :=
  Eval vm_compute in
  default (initial_world production)
    (run (initial_world production)
       [Render (props production "task" "a") 0;
        Fetch 0 (Reject NetworkError) 1]).

(** The URL changes and the second download succeeds. *)
Definition recovery_history : list (Event production) :=
  [Render (props production "task" "b") 2;
   Fetch 1 (Resolve ["x"] 0) 3].

Definition recovered_world : World production :=
  Eval vm_compute in default failed_world (run failed_world recovery_history).

(** A download that hits the byte limit and has two trimmed lines. *)
Definition truncated_history : list (Event production) :=
  [Render (props production "task" "a") 0;
   Fetch 0 (IncompleteDownload "File size limit exceeded" None) 1;
   Fetch 0 (Resolve ["x"] 2) 2].

Definition truncated_world : World production :=
  Eval vm_compute in
  default (initial_world production)
    (run (initial_world production) truncated_history).

(** The cancelled attempt of a hook that was torn down. *)
Definition unmounted_attempt : Attempt production :=
  @mkAttempt production "a" "task" 0 (Some 0%nat) 1000 Cancelled.

(** A production hook that was torn down while its attempt was in flight. *)
Definition unmounted_world : World production :=
  Eval vm_compute in
  default (initial_world production)
    (run (initial_world production)
       [Render (props production "task" "a") 0; Unmount]).

(** * Properties *)

Section Properties.

Context {cfg : Config}.
Local Open Scope list_scope.
Implicit Types (w : World cfg) (a : Attempt cfg) (p : UseLogDownloader cfg).

(** Runs a monadic computation on a symbolic world.  The evaluation is
    lazy, so that the world is not copied at every bind; list append,
    integer arithmetic and the decisions are left alone. *)
Ltac m_eval := lazy -[app Z.add Z.sub insert fmap default decide].

(** Reads the fields of a world that is given as a record. *)
Ltac fields :=
  cbn [hook returned calls attempts controllers aborted effect unmounted
       data error fileSize isLoading].

(** ** The handlers, as equations *)

Lemma count_calls_app (f : Call cfg -> bool) l1 l2 :
  count_calls f (l1 ++ l2) = (count_calls f l1 + count_calls f l2)%nat.
Proof. unfold count_calls. rewrite List.filter_app, length_app. reflexivity. Qed.

Lemma settle_rejected id a now err w :
  exec (settle id a now (inr err)) w =
  {| hook := {| data := data (hook w); error := Some (err_message err);
                fileSize := fileSize (hook w); isLoading := false |};
     returned :=
       if unmounted w then returned w
       else {| data := data (returned w); error := Some (err_message err);
               fileSize := fileSize (returned w); isLoading := false |};
     calls := calls w ++ rejected_calls a now (fileSize (hook w)) err
                      ++ finally_calls a now (fileSize (hook w));
     attempts := <[id := with_status Settled a]> (attempts w);
     controllers := controllers w; aborted := aborted w;
     effect := effect w; unmounted := unmounted w |}.
Proof.
  destruct w as [? ? ? ? ? ? ? []]; m_eval; rewrite <- ?app_assoc;
    reflexivity.
Qed.

Lemma settle_fulfilled id a now logs trimmedLines w :
  exec (settle id a now (inl (logs, trimmedLines))) w =
  {| hook := {| data := Some (pop_if_last_empty logs); error := error (hook w);
                fileSize := fileSize (hook w); isLoading := false |};
     returned :=
       if unmounted w then returned w
       else {| data := Some (pop_if_last_empty logs);
               error := error (returned w);
               fileSize := fileSize (returned w); isLoading := false |};
     calls := calls w ++ CallSetData (pop_if_last_empty logs)
                :: (if decide (trimmedLines = 0) then []
                    else trimmed_calls a now (fileSize (hook w)) trimmedLines)
                ++ finally_calls a now (fileSize (hook w));
     attempts := <[id := with_status Settled a]> (attempts w);
     controllers := controllers w; aborted := aborted w;
     effect := effect w; unmounted := unmounted w |}.
Proof.
  unfold exec, settle, onFulfilled.
  destruct (decide (trimmedLines = 0)); destruct w as [? ? ? ? ? ? ? []];
    m_eval; rewrite <- ?app_assoc; reflexivity.
Qed.

Lemma on_progress n w :
  exec (onProgress n) w =
  {| hook := {| data := data (hook w); error := error (hook w);
                fileSize := fileSize (hook w) + n;
                isLoading := isLoading (hook w) |};
     returned :=
       if unmounted w then returned w
       else {| data := data (returned w); error := error (returned w);
               fileSize := fileSize (hook w) + n;
               isLoading := isLoading (returned w) |};
     calls := calls w ++ [CallSetFileSize (fileSize (hook w) + n)];
     attempts := attempts w; controllers := controllers w;
     aborted := aborted w; effect := effect w; unmounted := unmounted w |}.
Proof. destruct w as [? ? ? ? ? ? ? []]; m_eval; reflexivity. Qed.

Lemma on_incomplete a now reason e w :
  exec (onIncompleteDownload a now reason e) w =
  {| hook := hook w; returned := returned w;
     calls := calls w ++ incomplete_calls a now (fileSize (hook w)) reason e;
     attempts := attempts w; controllers := controllers w;
     aborted := aborted w; effect := effect w; unmounted := unmounted w |}.
Proof.
  destruct w as [? ? ? ? ? ? ? []]; m_eval; rewrite <- ?app_assoc;
    reflexivity.
Qed.

Lemma step_fetch w id a now ev :
  attempts w !! id = Some a ->
  step w (Fetch id ev now) =
  match a_status a, ev with
  | InFlight, Progress progress => Some (exec (onProgress progress) w)
  | InFlight, IncompleteDownload reason e =>
      Some (exec (onIncompleteDownload a now reason e) w)
  | InFlight, Resolve logs trimmedLines =>
      Some (exec (settle id a now (inl (logs, trimmedLines))) w)
  | InFlight, Reject err => Some (exec (settle id a now (inr err)) w)
  | Cancelled, Reject err => Some (exec (settle id a now (inr err)) w)
  | _, _ => None
  end.
Proof. intros Ha. unfold step, fetch_event. rewrite Ha. reflexivity. Qed.

Lemma step_settles w id a now ev :
  attempts w !! id = Some a -> settles (a_status a) ev = true ->
  exists o, outcome_of ev = Some o /\
            step w (Fetch id ev now) = Some (exec (settle id a now o) w).
Proof.
  intros Ha Hs. rewrite (step_fetch _ _ _ _ _ Ha).
  destruct (a_status a), ev; try discriminate Hs; eexists; split; reflexivity.
Qed.

Lemma step_resolve w id a now logs trimmedLines :
  attempts w !! id = Some a -> a_status a = InFlight ->
  step w (Fetch id (Resolve logs trimmedLines) now)
  = Some (exec (settle id a now (inl (logs, trimmedLines))) w).
Proof. intros Ha Hs. rewrite (step_fetch _ _ _ _ _ Ha), Hs. reflexivity. Qed.

Lemma step_reject w id a now err :
  attempts w !! id = Some a -> a_status a <> Settled ->
  step w (Fetch id (Reject err) now)
  = Some (exec (settle id a now (inr err)) w).
Proof.
  intros Ha Hs. rewrite (step_fetch _ _ _ _ _ Ha).
  destruct (a_status a); [reflexivity | reflexivity | congruence].
Qed.

Lemma step_incomplete w id a now reason e :
  attempts w !! id = Some a -> a_status a = InFlight ->
  step w (Fetch id (IncompleteDownload reason e) now)
  = Some (exec (onIncompleteDownload a now reason e) w).
Proof. intros Ha Hs. rewrite (step_fetch _ _ _ _ _ Ha), Hs. reflexivity. Qed.

(** What React keeps of a settling attempt: nothing once the hook is torn
    down, the writes of the handlers while it is mounted. *)
Lemma settle_returned id a now o w :
  returned (exec (settle id a now o) w) =
  if unmounted w then returned w
  else match o with
       | inl (logs, _) =>
           {| data := Some (pop_if_last_empty logs);
              error := error (returned w);
              fileSize := fileSize (returned w); isLoading := false |}
       | inr err =>
           {| data := data (returned w); error := Some (err_message err);
              fileSize := fileSize (returned w); isLoading := false |}
       end.
Proof.
  destruct o as [[logs t] | err];
    [rewrite settle_fulfilled | rewrite settle_rejected]; reflexivity.
Qed.

(** ** The line array exposed as [data] *)

Lemma pop_trailing_empty (l : list string) :
  pop_if_last_empty (l ++ [EmptyString])%list = l.
Proof.
  unfold pop_if_last_empty. rewrite last_snoc.
  destruct (decide (Some EmptyString = Some EmptyString)) as [_ | n];
    [| congruence].
  apply List.removelast_last.
Qed.

Lemma pop_nothing (logs : list string) :
  last logs <> Some EmptyString -> pop_if_last_empty logs = logs.
Proof.
  intros H. unfold pop_if_last_empty.
  destruct (decide (last logs = Some EmptyString));
    [contradiction | reflexivity].
Qed.

(** C4: when a fetch resolves, the hook exposes the returned lines as [data]
    with exactly one trailing element removed if and only if the last element
    is the empty string: an array [l ++ [EmptyString]] is exposed as [l],
    any other array (the empty one, or one whose last line is not empty) is
    exposed unchanged.  While the hook is mounted, the [data] it returns is
    the array [setData] was called with. *)
Theorem data_drops_one_trailing_empty_line w id a now logs trimmedLines :
  attempts w !! id = Some a -> a_status a = InFlight ->
  exists w',
    step w (Fetch id (Resolve logs trimmedLines) now) = Some w' /\
    (forall l, logs = (l ++ [EmptyString])%list -> data (hook w') = Some l) /\
    (last logs <> Some EmptyString -> data (hook w') = Some logs) /\
    (unmounted w = false -> data (returned w') = data (hook w')).
Proof.
  intros Ha Hs. eexists. split; [apply (step_resolve _ _ _ _ _ _ Ha Hs) |].
  rewrite settle_returned, settle_fulfilled. fields. split; [| split].
  - intros l ->. rewrite pop_trailing_empty. reflexivity.
  - intros H. rewrite (pop_nothing _ H). reflexivity.
  - intros ->. reflexivity.
Qed.

(** ** Line-length trimming *)

(** C2: when a fetch resolves with a nonzero [trimmedLines], the hook sends
    the 'Log Download Incomplete' event with reason 'Log line size limit
    exceeded', reports an error whose metadata holds the trimmed-line count,
    and shows the line-length toast, whatever happened earlier in the attempt;
    when [onIncompleteDownload] fired first, its own toast was shown as a
    separate call and both toasts are in the history of the one attempt. *)
Theorem line_length_warning_is_emitted w id a now logs trimmedLines :
  attempts w !! id = Some a -> a_status a = InFlight -> trimmedLines <> 0 ->
  (exists w' pre post,
     step w (Fetch id (Resolve logs trimmedLines) now) = Some w' /\
     calls w' = calls w ++ pre ++
       [CallSendEvent (LogDownloadIncomplete (fileSize (hook w))
                         (now - a_timeStart a) "Log line size limit exceeded");
        CallReportWarning (new_Error "Incomplete download")
          (Some {| md_message := "Log line size limit exceeded";
                   md_metadata := MdTrimmed trimmedLines (a_url a);
                   md_name := "Log download incomplete" |});
        CallToastWarning (LOG_LINE_TOO_LARGE_WARNING cfg) true false
          "Log not fully downloaded"] ++ post) /\
  (forall reason e now0,
   exists w1 w2 l1 l2 l3,
     step w (Fetch id (IncompleteDownload reason e) now0) = Some w1 /\
     step w1 (Fetch id (Resolve logs trimmedLines) now) = Some w2 /\
     calls w2 = calls w ++ l1 ++
       [CallToastWarning (LOG_FILE_DOWNLOAD_TOO_LARGE_WARNING cfg) true false
          "Log not fully downloaded"] ++ l2 ++
       [CallToastWarning (LOG_LINE_TOO_LARGE_WARNING cfg) true false
          "Log not fully downloaded"] ++ l3).
Proof.
  intros Ha Hs Ht. split.
  - eexists _, [_], _. split; [apply (step_resolve _ _ _ _ _ _ Ha Hs) |].
    rewrite settle_fulfilled. cbn.
    destruct (decide (trimmedLines = 0)); [contradiction |]. reflexivity.
  - intros reason e now0.
    eexists _, _, [_], [_; _; _; _], _.
    split; [apply (step_incomplete _ _ _ _ _ _ Ha Hs) |].
    rewrite on_incomplete. split.
    + apply step_resolve; [exact Ha | exact Hs].
    + rewrite settle_fulfilled. cbn.
      destruct (decide (trimmedLines = 0)); [contradiction |].
      rewrite <- ?app_assoc. reflexivity.
Qed.

(** ** Failures *)

(** C7: when a fetch that is in flight rejects, the hook sets [error] to the
    failure's message, leaves [data] as it was and never calls [setData], and
    the events it sends are the 'Log Download Failed' event followed by the
    cleanup's 'Log Downloaded' event; the name of the failure event is neither
    that of the incomplete-download event nor that of the completed event.
    While the hook is mounted, the [error] it returns is that message and the
    [data] it returns is left as it was. *)
Theorem transport_failure_sets_error w id a now err :
  attempts w !! id = Some a -> a_status a = InFlight ->
  exists w' new,
    step w (Fetch id (Reject err) now) = Some w' /\
    error (hook w') = Some (err_message err) /\
    data (hook w') = data (hook w) /\
    calls w' = calls w ++ new /\
    count_calls is_setData new = 0%nat /\
    events_of new =
      [LogDownloadFailed (now - a_timeStart a) (fileSize (hook w)) (a_logType a);
       LogDownloaded (now - a_timeStart a) (fileSize (hook w)) (a_logType a)] /\
    (forall e, In e (events_of new) ->
       event_name e = "Log Download Failed" \/ event_name e = "Log Downloaded") /\
    (forall d f t d1 f1 r d2 f2 t2,
       event_name (@LogDownloadFailed cfg d f t)
         <> event_name (@LogDownloadIncomplete cfg f1 d1 r) /\
       event_name (@LogDownloadFailed cfg d f t)
         <> event_name (@LogDownloaded cfg d2 f2 t2)) /\
    (unmounted w = false ->
     error (returned w') = Some (err_message err) /\
     data (returned w') = data (returned w)).
Proof.
  intros Ha Hs. eexists _, _. split.
  { apply step_reject; [exact Ha | rewrite Hs; discriminate]. }
  rewrite settle_returned, settle_rejected. cbn.
  repeat split; try reflexivity; try discriminate.
  - intros e [<- | [<- | []]]; [left | right]; reflexivity.
  - rewrite H. reflexivity.
  - rewrite H. reflexivity.
Qed.

(** C3 (amended): an attempt abandoned by cancellation can only reject.  Its
    rejection sets no data and the cleanup still sends the final 'Log
    Downloaded' event.  When the hook was torn down, what it returns is left
    exactly as it was: no error is set.  When the hook is still mounted, as
    after a superseding URL, the rejection goes through the [catch] handler
    like any other failure and [error] becomes the rejection's message. *)
Theorem cancelled_attempt_outcome w id a now err :
  attempts w !! id = Some a -> a_status a = Cancelled ->
  (forall logs trimmedLines now',
     step w (Fetch id (Resolve logs trimmedLines) now') = None) /\
  exists w' new,
    step w (Fetch id (Reject err) now) = Some w' /\
    data (returned w') = data (returned w) /\
    calls w' = calls w ++ new /\
    count_calls is_setData new = 0%nat /\
    events_of new =
      [LogDownloadFailed (now - a_timeStart a) (fileSize (hook w)) (a_logType a);
       LogDownloaded (now - a_timeStart a) (fileSize (hook w)) (a_logType a)] /\
    (unmounted w = true -> returned w' = returned w) /\
    (unmounted w = false -> error (returned w') = Some (err_message err)).
Proof.
  intros Ha Hs. split.
  - intros logs t now'. rewrite (step_fetch _ _ _ _ _ Ha), Hs. reflexivity.
  - eexists _, _. split.
    { apply step_reject; [exact Ha | rewrite Hs; discriminate]. }
    rewrite settle_returned. rewrite settle_rejected. fields.
    split; [destruct (unmounted w); reflexivity |].
    split; [reflexivity |]. split; [reflexivity |]. split; [reflexivity |].
    split; intros ->; reflexivity.
Qed.

(** ** Steps, case by case *)

Lemma run_effect_empty p now w :
  url p = EmptyString ->
  exec (run_effect p now) w =
  {| hook := hook w; returned := returned w;
     calls := calls w ++ [CallLeaveBreadcrumb "useLogDownloader"
                            (BcStart (url p)) SentryBreadcrumb_HTTP];
     attempts := attempts w; controllers := S (controllers w);
     aborted := aborted w;
     effect := Some {| eff_url := url p; eff_abortController := controllers w |};
     unmounted := false |}.
Proof.
  intros Hu. unfold exec, run_effect, useEffect_body.
  destruct (decide (url p = EmptyString)); [| contradiction].
  destruct w as [? ? ? ? ? ? ? []]; m_eval; reflexivity.
Qed.

Lemma run_effect_fetch p now w :
  url p <> EmptyString ->
  exec (run_effect p now) w =
  {| hook := {| data := data (hook w); error := error (hook w);
                fileSize := fileSize (hook w); isLoading := true |};
     returned :=
       if unmounted w then returned w
       else {| data := data (returned w); error := error (returned w);
               fileSize := fileSize (returned w); isLoading := true |};
     calls := calls w ++ [CallLeaveBreadcrumb "useLogDownloader"
                            (BcStart (url p)) SentryBreadcrumb_HTTP;
                          CallSetIsLoading true];
     attempts := attempts w ++
       [{| a_url := url p; a_logType := logType p; a_timeStart := now;
           a_abortController :=
             if isProduction cfg then Some (controllers w) else None;
           a_downloadSizeLimit :=
             default (LOG_FILE_SIZE_LIMIT cfg) (downloadSizeLimit p);
           a_status := InFlight |}];
     controllers := S (controllers w); aborted := aborted w;
     effect := Some {| eff_url := url p; eff_abortController := controllers w |};
     unmounted := false |}.
Proof.
  intros Hu. unfold exec, run_effect, useEffect_body.
  destruct (decide (url p = EmptyString)); [contradiction |].
  destruct w as [? ? ? ? ? ? ? []]; m_eval; rewrite <- ?app_assoc;
    reflexivity.
Qed.

Lemma run_cleanup e0 w :
  exec (cleanup e0) w =
  {| hook := hook w; returned := returned w; calls := calls w;
     attempts := signal_aborted (eff_abortController e0) <$> attempts w;
     controllers := controllers w;
     aborted := eff_abortController e0 :: aborted w;
     effect := effect w; unmounted := unmounted w |}.
Proof. reflexivity. Qed.

Lemma step_inv w ev w' :
  step w ev = Some w' ->
  match ev with
  | Render p now =>
      unmounted w = false /\
      match effect w with
      | None => w' = exec (run_effect p now) w
      | Some e0 =>
          (eff_url e0 = url p /\ w' = w) \/
          (eff_url e0 <> url p /\
           w' = exec (run_effect p now) (exec (cleanup e0) w))
      end
  | Unmount =>
      unmounted w = false /\
      exists e0, effect w = Some e0 /\
                 w' = exec (set_effect None true) (exec (cleanup e0) w)
  | Fetch id fev now =>
      exists a, attempts w !! id = Some a /\
        match fev with
        | Progress n => a_status a = InFlight /\ w' = exec (onProgress n) w
        | IncompleteDownload reason e =>
            a_status a = InFlight /\
            w' = exec (onIncompleteDownload a now reason e) w
        | Resolve logs trimmedLines =>
            a_status a = InFlight /\
            w' = exec (settle id a now (inl (logs, trimmedLines))) w
        | Reject err =>
            a_status a <> Settled /\ w' = exec (settle id a now (inr err)) w
        end
  end.
Proof.
  destruct ev as [p now | | id fev now].
  - unfold step, render. destruct (unmounted w); [discriminate |].
    destruct (effect w) as [e0 |].
    + destruct (decide (eff_url e0 = url p)) as [Heq | Hne];
        intros [= <-]; (split; [reflexivity |]).
      * left. split; [exact Heq | reflexivity].
      * right. split; [exact Hne | reflexivity].
    + intros [= <-]. split; reflexivity.
  - unfold step, unmount. destruct (unmounted w); [discriminate |].
    destruct (effect w) as [e0 |]; [| discriminate].
    intros [= <-]. split; [reflexivity |]. exists e0. split; reflexivity.
  - intros H. destruct (attempts w !! id) as [a |] eqn:Ha.
    + rewrite (step_fetch _ _ _ _ _ Ha) in H. exists a. split; [reflexivity |].
      destruct (a_status a), fev;
        lazymatch type of H with
        | None = Some _ => discriminate H
        | Some _ = Some _ =>
            apply (inj Some) in H; subst w';
            split; [first [reflexivity | discriminate] | reflexivity]
        end.
    + unfold step, fetch_event in H. rewrite Ha in H. discriminate H.
Qed.

Lemma run_cons w ev evs w' :
  run w (ev :: evs) = Some w' ->
  exists w1, step w ev = Some w1 /\ run w1 evs = Some w'.
Proof.
  change (run w (ev :: evs)) with (step w ev ≫= fun w1 => run w1 evs).
  destruct (step w ev) as [w1 |]; [| discriminate].
  intros H. exists w1. split; [reflexivity | exact H].
Qed.

Lemma run_nil w w' : run w [] = Some w' -> w' = w.
Proof. intros H. apply (inj Some) in H. symmetry. exact H. Qed.

(** A property that holds initially and is kept by every step holds after
    every history. *)
Lemma run_invariant (P : World cfg -> Prop) :
  (forall w ev w', P w -> step w ev = Some w' -> P w') ->
  forall evs w w', P w -> run w evs = Some w' -> P w'.
Proof.
  intros Hstep. induction evs as [| ev evs IH]; intros w w' HP Hrun.
  - apply run_nil in Hrun. subst w'. exact HP.
  - apply run_cons in Hrun. destruct Hrun as (w1 & E & Hrun).
    eapply IH; [eapply Hstep; eassumption | exact Hrun].
Qed.

(** ** What the hook returns *)

Lemma step_mounted w ev w' :
  step w ev = Some w' -> unmounted w' = false -> unmounted w = false.
Proof.
  intros H Hm. apply step_inv in H. destruct ev as [p now | | id fev now].
  - destruct H as [H _]. exact H.
  - destruct H as [H _]. exact H.
  - destruct H as (a & _ & H). destruct fev; destruct H as [_ ->];
      [rewrite on_progress in Hm | rewrite on_incomplete in Hm
      | rewrite settle_fulfilled in Hm | rewrite settle_rejected in Hm];
      exact Hm.
Qed.

(** While the hook is mounted, what it returns is what its setters wrote. *)
Lemma step_returned w ev w' :
  step w ev = Some w' -> unmounted w = false -> returned w = hook w ->
  returned w' = hook w'.
Proof.
  intros H Hm Hr. apply step_inv in H. destruct ev as [p now | | id fev now].
  - destruct H as [_ H]. destruct (effect w) as [e0 |].
    + destruct H as [[_ ->] | [_ ->]]; [exact Hr |].
      destruct (decide (url p = EmptyString)) as [Hu | Hu];
        [rewrite (run_effect_empty _ _ _ Hu) | rewrite (run_effect_fetch _ _ _ Hu)];
        rewrite run_cleanup; fields; rewrite ?Hm, Hr; reflexivity.
    + subst w'. destruct (decide (url p = EmptyString)) as [Hu | Hu];
        [rewrite (run_effect_empty _ _ _ Hu) | rewrite (run_effect_fetch _ _ _ Hu)];
        fields; rewrite ?Hm, Hr; reflexivity.
  - destruct H as [_ (e0 & _ & ->)]. exact Hr.
  - destruct H as (a & _ & H). destruct fev; destruct H as [_ ->].
    + rewrite on_progress. fields. rewrite Hm, Hr. reflexivity.
    + rewrite on_incomplete. exact Hr.
    + rewrite settle_fulfilled. fields. rewrite Hm, Hr. reflexivity.
    + rewrite settle_rejected. fields. rewrite Hm, Hr. reflexivity.
Qed.

Lemma run_returned evs w :
  run (initial_world cfg) evs = Some w -> unmounted w = false ->
  returned w = hook w.
Proof.
  apply (run_invariant (fun w => unmounted w = false -> returned w = hook w)).
  - intros w0 ev w1 IH H Hm. pose proof (step_mounted _ _ _ H Hm) as Hm0.
    apply (step_returned _ _ _ H Hm0 (IH Hm0)).
  - reflexivity.
Qed.

(** After teardown, what the hook returns does not change any more. *)
Lemma step_after_teardown w ev w' :
  step w ev = Some w' -> unmounted w = true -> returned w' = returned w.
Proof.
  intros H Hm. apply step_inv in H. destruct ev as [p now | | id fev now].
  - destruct H as [H _]. congruence.
  - destruct H as [H _]. congruence.
  - destruct H as (a & _ & H). destruct fev; destruct H as [_ ->].
    + rewrite on_progress. fields. rewrite Hm. reflexivity.
    + rewrite on_incomplete. reflexivity.
    + rewrite settle_returned, Hm. reflexivity.
    + rewrite settle_returned, Hm. reflexivity.
Qed.

(** ** The byte counter *)

Lemma step_fileSize w ev w' :
  step w ev = Some w' ->
  fileSize (hook w') = fileSize (hook w) + progress_of ev.
Proof.
  intros H. apply step_inv in H. destruct ev as [p now | | id fev now]; cbn.
  - destruct H as [_ H]. destruct (effect w) as [e0 |].
    + destruct H as [[_ ->] | [_ ->]]; [lia |].
      destruct (decide (url p = EmptyString)) as [Hu | Hu];
        [rewrite (run_effect_empty _ _ _ Hu) | rewrite (run_effect_fetch _ _ _ Hu)];
        cbn; lia.
    + subst w'. destruct (decide (url p = EmptyString)) as [Hu | Hu];
        [rewrite (run_effect_empty _ _ _ Hu) | rewrite (run_effect_fetch _ _ _ Hu)];
        cbn; lia.
  - destruct H as [_ (e0 & _ & ->)]. cbn. lia.
  - destruct H as (a & _ & H). destruct fev; destruct H as [_ ->].
    + rewrite on_progress. reflexivity.
    + rewrite on_incomplete. cbn. lia.
    + rewrite settle_fulfilled. cbn. lia.
    + rewrite settle_rejected. cbn. lia.
Qed.

Lemma delivered_cons (ev : Event cfg) evs :
  delivered (ev :: evs) = progress_of ev + delivered evs.
Proof. reflexivity. Qed.

Lemma run_fileSize evs : forall w w',
  run w evs = Some w' ->
  fileSize (hook w') = fileSize (hook w) + delivered evs.
Proof.
  induction evs as [| ev evs IH]; intros w w' Hrun.
  - apply run_nil in Hrun. subst w'. cbn. lia.
  - apply run_cons in Hrun. destruct Hrun as (w1 & E & Hrun).
    rewrite (IH _ _ Hrun), (step_fileSize _ _ _ E), delivered_cons. lia.
Qed.

Lemma delivered_nonneg (evs : list (Event cfg)) :
  Forall (fun ev => 0 <= progress_of ev) evs -> 0 <= delivered evs.
Proof. induction 1; rewrite ?delivered_cons; [reflexivity | lia]. Qed.

Lemma delivered_received id (evs : list (Event cfg)) :
  Forall (fun ev => progress_of ev <> 0 -> from_attempt id ev = true) evs ->
  delivered evs = received id evs.
Proof.
  unfold received. induction 1 as [| ev evs H _ IH]; [reflexivity |].
  rewrite delivered_cons. cbn [List.filter].
  destruct (from_attempt id ev) eqn:E; rewrite ?delivered_cons; [lia |].
  destruct (decide (progress_of ev = 0)) as [E0 | Hn]; [lia |].
  specialize (H Hn). congruence.
Qed.

(** C8 (amended): every progress notification adds its byte count to the
    hook's one [fileSize] counter: over any stretch of a history [fileSize]
    grows by exactly the sum of the byte counts delivered in it, so when the
    counts are non-negative it never decreases, and for a freshly mounted hook
    whose notifications all come from one attempt it equals the bytes that
    attempt has received so far.  While the hook is mounted, the [fileSize]
    it returns is that counter. *)
Theorem fileSize_accumulates_progress w evs w' :
  run w evs = Some w' ->
  fileSize (hook w') = fileSize (hook w) + delivered evs /\
  (Forall (fun ev => 0 <= progress_of ev) evs ->
   fileSize (hook w) <= fileSize (hook w')) /\
  (forall id,
     w = initial_world cfg ->
     Forall (fun ev => progress_of ev <> 0 -> from_attempt id ev = true) evs ->
     fileSize (hook w') = received id evs) /\
  (w = initial_world cfg -> unmounted w' = false ->
   fileSize (returned w') = fileSize (hook w')).
Proof.
  intros Hrun. pose proof (run_fileSize _ _ _ Hrun) as E.
  split; [exact E | split; [| split]].
  - intros Hpos. apply delivered_nonneg in Hpos. lia.
  - intros id -> Hone. rewrite E, (delivered_received id _ Hone). cbn. lia.
  - intros -> Hm. rewrite (run_returned evs w' Hrun Hm). reflexivity.
Qed.

(** ** The empty URL *)

Lemma render_empty_url p now w w' :
  url p = EmptyString -> step w (Render p now) = Some w' ->
  hook w' = hook w /\ length (attempts w') = length (attempts w) /\
  (attempts w = [] -> attempts w' = []) /\
  exists new, calls w' = calls w ++ new /\
              count_calls is_toast_or_event new = 0%nat /\
              count_calls (is_setIsLoading true) new = 0%nat.
Proof.
  intros Hu H. apply step_inv in H. destruct H as [_ H].
  destruct (effect w) as [e0 |].
  - destruct H as [[_ ->] | [_ ->]].
    + repeat split; try reflexivity. auto. exists []. rewrite app_nil_r. auto.
    + rewrite (run_effect_empty _ _ _ Hu), run_cleanup. cbn.
      rewrite length_fmap. repeat split; eauto. intros ->. reflexivity.
  - subst w'. rewrite (run_effect_empty _ _ _ Hu). cbn. repeat split; eauto.
Qed.

Lemma step_quiet w ev w' :
  quiet w -> only_empty_url [ev] -> step w ev = Some w' -> quiet w'.
Proof.
  intros (Hh & Ha & Hc1 & Hc2) Hev H. destruct ev as [p now | | id fev now].
  - assert (Hu : url p = EmptyString)
      by (apply (Hev p now); left; reflexivity).
    destruct (render_empty_url _ _ _ _ Hu H) as (E1 & _ & E3 & new & E4 & E5 & E6).
    unfold quiet. rewrite E1, E4, !count_calls_app, Hc1, Hc2, E5, E6. auto.
  - apply step_inv in H. destruct H as [_ (e0 & _ & ->)].
    unfold quiet. cbn. rewrite Ha. auto.
  - apply step_inv in H. destruct H as (a & H & _). rewrite Ha in H.
    discriminate H.
Qed.

Lemma run_quiet evs : forall w w',
  quiet w -> only_empty_url evs -> run w evs = Some w' -> quiet w'.
Proof.
  induction evs as [| ev evs IH]; intros w w' Hq Hev Hrun.
  - apply run_nil in Hrun. subst w'. exact Hq.
  - apply run_cons in Hrun. destruct Hrun as (w1 & E & Hrun).
    apply (IH w1 w'); [| | exact Hrun].
    + apply (step_quiet w ev); [exact Hq | | exact E].
      intros p now [-> | []]. apply (Hev p now). left. reflexivity.
    + intros p now Hin. apply (Hev p now). right. exact Hin.
Qed.

(** C9: rendering the hook with the empty URL issues no fetch: the step
    leaves the four state cells as they were, adds no attempt, and makes no
    [setIsLoading(true)], toast or analytics call; and a hook that is mounted
    with the empty URL and is never given another one keeps [data] and [error]
    undefined, [fileSize] 0 and [isLoading] false, has no attempt at all, and
    has emitted no toast and no event, after every history. *)
Theorem empty_url_starts_nothing p now :
  url p = EmptyString ->
  (forall w w',
     step w (Render p now) = Some w' ->
     hook w' = hook w /\ length (attempts w') = length (attempts w) /\
     exists new, calls w' = calls w ++ new /\
                 count_calls is_toast_or_event new = 0%nat /\
                 count_calls (is_setIsLoading true) new = 0%nat) /\
  (exists w0, step (initial_world cfg) (Render p now) = Some w0) /\
  (forall evs w',
     only_empty_url evs ->
     run (initial_world cfg) (Render p now :: evs) = Some w' ->
     hook w' = initial_state /\ attempts w' = [] /\
     count_calls is_toast_or_event (calls w') = 0%nat /\
     count_calls (is_setIsLoading true) (calls w') = 0%nat).
Proof.
  intros Hu. split; [| split].
  - intros w w' H.
    destruct (render_empty_url _ _ _ _ Hu H) as (E1 & E2 & _ & E4). auto.
  - eexists. reflexivity.
  - intros evs w' Hev Hrun.
    apply (run_quiet (Render p now :: evs) (initial_world cfg) w');
      [| | exact Hrun].
    + repeat split.
    + intros p' now' [[= -> ->] | Hin]; [exact Hu | apply (Hev p' now' Hin)].
Qed.

(** ** Settling an attempt *)

Lemma settle_shape id a now o w :
  exists pre,
    calls (exec (settle id a now o) w)
    = calls w ++ pre ++ finally_calls a now (fileSize (hook w)) /\
    count_calls is_LogDownloaded pre = 0%nat /\
    (forall b, count_calls (is_setIsLoading b) pre = 0%nat) /\
    isLoading (hook (exec (settle id a now o) w)) = false /\
    attempts (exec (settle id a now o) w)
    = <[id := with_status Settled a]> (attempts w).
Proof.
  destruct o as [[logs t] | err].
  - rewrite settle_fulfilled.
    exists (CallSetData (pop_if_last_empty logs)
            :: if decide (t = 0) then []
               else trimmed_calls a now (fileSize (hook w)) t).
    split; [reflexivity |].
    destruct (decide (t = 0)); repeat split; intros []; reflexivity.
  - rewrite settle_rejected.
    exists (rejected_calls a now (fileSize (hook w)) err).
    split; [reflexivity |]. repeat split; intros []; reflexivity.
Qed.

Lemma settled_is_final w id a :
  attempts w !! id = Some a -> a_status a = Settled ->
  forall ev now, step w (Fetch id ev now) = None.
Proof.
  intros Ha Hs ev now. cbn. unfold fetch_event. rewrite Ha. cbn. rewrite Hs.
  destruct ev; reflexivity.
Qed.

Lemma lookup_settled (l : list (Attempt cfg)) id a :
  l !! id = Some a ->
  <[id := with_status Settled a]> l !! id = Some (with_status Settled a).
Proof. intros H. apply list_lookup_insert_eq, (lookup_lt_Some _ _ _ H). Qed.

(** ** Counting attempts *)

Lemma signal_aborted_settled c a :
  a_status (signal_aborted c a) = Settled <-> a_status a = Settled.
Proof.
  unfold signal_aborted. destruct (a_status a) eqn:E; [| rewrite E; tauto ..].
  destruct (decide (a_abortController a = Some c)); cbn; rewrite ?E;
    split; discriminate.
Qed.

Lemma settled_after_abort c (l : list (Attempt cfg)) :
  length (filter (fun a => a_status a = Settled) (signal_aborted c <$> l))
  = length (filter (fun a => a_status a = Settled) l).
Proof.
  induction l as [| x l IH]; [reflexivity |].
  rewrite fmap_cons, !filter_cons.
  pose proof (signal_aborted_settled c x) as Hx.
  destruct (decide (a_status (signal_aborted c x) = Settled)),
           (decide (a_status x = Settled)); cbn; try tauto; lia.
Qed.

Lemma settled_after_settle (l : list (Attempt cfg)) : forall id a,
  l !! id = Some a -> a_status a <> Settled ->
  length (filter (fun a => a_status a = Settled) (<[id := with_status Settled a]> l))
  = S (length (filter (fun a => a_status a = Settled) l)).
Proof.
  induction l as [| x l IH]; intros [| id] a Ha Hs; try discriminate Ha.
  - injection Ha as ->.
    change (<[0%nat := with_status Settled a]> (a :: l))
      with (with_status Settled a :: l).
    rewrite filter_cons_True by reflexivity.
    rewrite filter_cons_False by exact Hs. reflexivity.
  - change (l !! id = Some a) in Ha.
    change (<[S id := with_status Settled a]> (x :: l))
      with (x :: <[id := with_status Settled a]> l).
    rewrite !filter_cons.
    destruct (decide (a_status x = Settled)); cbn [length];
      rewrite (IH _ _ Ha Hs); reflexivity.
Qed.

Lemma settled_after_fetch (l : list (Attempt cfg)) a :
  a_status a = InFlight ->
  filter (fun a => a_status a = Settled) (l ++ [a])
  = filter (fun a => a_status a = Settled) l.
Proof.
  intros Hs. rewrite filter_app, filter_cons_False, filter_nil, app_nil_r;
    [reflexivity | rewrite Hs; discriminate].
Qed.

Lemma run_effect_balanced p now w : balanced w -> balanced (exec (run_effect p now) w).
Proof.
  intros (H1 & H2 & H3). unfold balanced, settled.
  destruct (decide (url p = EmptyString)) as [Hu | Hu].
  - rewrite (run_effect_empty _ _ _ Hu). fields.
    rewrite !count_calls_app, H1, H2, H3. unfold settled.
    repeat split; apply Nat.add_0_r.
  - rewrite (run_effect_fetch _ _ _ Hu). fields.
    rewrite !count_calls_app, H1, H2, H3, length_app,
      settled_after_fetch by reflexivity.
    unfold settled. repeat split; apply Nat.add_0_r.
Qed.

Lemma cleanup_balanced e0 w : balanced w -> balanced (exec (cleanup e0) w).
Proof.
  intros (H1 & H2 & H3). unfold balanced, settled. rewrite run_cleanup. fields.
  rewrite length_fmap, settled_after_abort. auto.
Qed.

Lemma settle_balanced id a now o w :
  attempts w !! id = Some a -> a_status a <> Settled ->
  balanced w -> balanced (exec (settle id a now o) w).
Proof.
  intros Ha Hs (H1 & H2 & H3).
  destruct (settle_shape id a now o w) as (pre & E1 & E2 & E3 & _ & E5).
  unfold balanced, settled. rewrite E1, E5.
  rewrite !count_calls_app, E2, !E3, H1, H2, H3, length_insert,
    (settled_after_settle _ _ _ Ha Hs).
  unfold settled.
  change (count_calls (is_setIsLoading true) (finally_calls _ _ _)) with 0%nat.
  change (count_calls (is_setIsLoading false) (finally_calls _ _ _)) with 1%nat.
  change (count_calls is_LogDownloaded (finally_calls _ _ _)) with 1%nat.
  lia.
Qed.

Lemma step_balanced w ev w' : balanced w -> step w ev = Some w' -> balanced w'.
Proof.
  intros Hb H. apply step_inv in H. destruct ev as [p now | | id fev now].
  - destruct H as [_ H]. destruct (effect w) as [e0 |].
    + destruct H as [[_ ->] | [_ ->]]; [exact Hb |].
      apply run_effect_balanced, cleanup_balanced, Hb.
    + subst w'. apply run_effect_balanced, Hb.
  - destruct H as [_ (e0 & _ & ->)].
    apply (cleanup_balanced e0) in Hb. exact Hb.
  - destruct H as (a & Ha & H). destruct fev; destruct H as [Hs ->].
    + destruct Hb as (H1 & H2 & H3). unfold balanced, settled.
      rewrite on_progress. fields.
      rewrite !count_calls_app, H1, H2, H3. unfold settled.
      repeat split; apply Nat.add_0_r.
    + destruct Hb as (H1 & H2 & H3). unfold balanced, settled.
      rewrite on_incomplete. fields.
      rewrite !count_calls_app, H1, H2, H3. unfold settled.
      repeat split; apply Nat.add_0_r.
    + apply settle_balanced; [exact Ha | rewrite Hs; discriminate | exact Hb].
    + apply settle_balanced; [exact Ha | exact Hs | exact Hb].
Qed.

Lemma run_balanced evs w' :
  run (initial_world cfg) evs = Some w' -> balanced w'.
Proof.
  apply (run_invariant balanced).
  - intros w ev w1. apply step_balanced.
  - repeat split.
Qed.

Lemma render_starts_attempt w p now :
  url p <> EmptyString -> unmounted w = false ->
  (forall e0, effect w = Some e0 -> eff_url e0 <> url p) ->
  exists w1, step w (Render p now) = Some (exec (run_effect p now) w1) /\
             hook w1 = hook w /\ calls w1 = calls w /\
             length (attempts w1) = length (attempts w).
Proof.
  intros Hu Hm He. cbn. unfold render. rewrite Hm.
  destruct (effect w) as [e0 |] eqn:E.
  - destruct (decide (eff_url e0 = url p)) as [Heq | _].
    + destruct (He e0 eq_refl Heq).
    + exists (exec (cleanup e0) w). rewrite run_cleanup. cbn.
      rewrite length_fmap. auto.
  - exists w. auto.
Qed.



(** C6: however an attempt ends (resolved, rejected, or rejected after
    cancellation), settling it runs the cleanup after the [then] or [catch]
    handler, and the cleanup sends the 'Log Downloaded' event, which no other
    handler of the attempt sends; once settled, no handler of that attempt
    runs again.  Over any history the number of 'Log Downloaded' events is the
    number of attempts settled. *)
Theorem log_downloaded_once_per_attempt :
  (forall w id a now ev,
     attempts w !! id = Some a -> settles (a_status a) ev = true ->
     exists w' pre,
       step w (Fetch id ev now) = Some w' /\
       calls w' = calls w ++ pre ++
         [CallLeaveBreadcrumb "useLogDownloader"
            (BcFinished (getBytesAsString cfg (fileSize (hook w)))
               (now - a_timeStart a) (a_url a)) SentryBreadcrumb_HTTP;
          CallSendEvent (LogDownloaded (now - a_timeStart a)
                           (fileSize (hook w)) (a_logType a));
          CallSetIsLoading false] /\
       count_calls is_LogDownloaded pre = 0%nat /\
       event_name (LogDownloaded (now - a_timeStart a)
                     (fileSize (hook w)) (a_logType a)) = "Log Downloaded" /\
       forall ev' now', step w' (Fetch id ev' now') = None) /\
  (forall w id a now ev w',
     attempts w !! id = Some a -> settles (a_status a) ev = false ->
     step w (Fetch id ev now) = Some w' ->
     exists new, calls w' = calls w ++ new /\
                 count_calls is_LogDownloaded new = 0%nat) /\
  (forall evs w,
     run (initial_world cfg) evs = Some w ->
     count_calls is_LogDownloaded (calls w) = length (settled w)).
Proof.
  split; [| split].
  - intros w id a now ev Ha Hs.
    destruct (step_settles w id a now ev Ha Hs) as (o & _ & E).
    destruct (settle_shape id a now o w) as (pre & E1 & E2 & _ & _ & E5).
    eexists _, pre. split; [exact E |]. split; [exact E1 |].
    split; [exact E2 |]. split; [reflexivity |].
    apply (settled_is_final _ id (with_status Settled a)); [| reflexivity].
    rewrite E5. apply lookup_settled, Ha.
  - intros w id a now ev w' Ha Hs H. apply step_inv in H.
    destruct H as (a' & Ha' & H). rewrite Ha in Ha'. injection Ha' as <-.
    destruct ev; destruct H as [Hst ->].
    + rewrite on_progress. cbn. eexists. split; reflexivity.
    + rewrite on_incomplete. cbn. eexists. split; reflexivity.
    + rewrite Hst in Hs. discriminate Hs.
    + destruct (a_status a); [discriminate Hs | discriminate Hs | congruence].
  - intros evs w Hrun. destruct (run_balanced evs w Hrun) as (_ & _ & H3).
    exact H3.
Qed.

(** ** One attempt at a time, in production *)

Lemma filter_none {A} (P : A -> Prop) `{forall x, Decision (P x)} (l : list A) :
  (forall i y, l !! i = Some y -> ~ P y) -> filter P l = [].
Proof.
  induction l as [| x l IH]; intros Hl; [reflexivity |].
  rewrite filter_cons_False by apply (Hl 0%nat x eq_refl).
  apply IH. intros i y Hi. apply (Hl (S i) y Hi).
Qed.

Lemma filter_only_last {A} (P : A -> Prop) `{forall x, Decision (P x)} (l : list A) :
  (forall i y, l !! i = Some y -> P y -> S i = length l) ->
  (length (filter P l) <= 1)%nat.
Proof.
  destruct l as [| x l] using rev_ind; intros Hl; [cbn; lia |].
  rewrite filter_app, length_app, (filter_none P l).
  - rewrite filter_cons, filter_nil. destruct (decide (P x)); cbn; lia.
  - intros i y Hi HP. pose proof (lookup_lt_Some _ _ _ Hi) as Hlt.
    specialize (Hl i y). rewrite lookup_app_l in Hl by exact Hlt.
    specialize (Hl Hi HP). rewrite length_app in Hl. cbn in Hl. lia.
Qed.

Lemma signal_aborted_controller c a :
  a_abortController (signal_aborted c a) = a_abortController a.
Proof.
  unfold signal_aborted. destruct (a_status a); [| reflexivity ..].
  destruct (decide (a_abortController a = Some c)); reflexivity.
Qed.

Lemma signal_aborted_own c a :
  a_abortController a = Some c -> a_status (signal_aborted c a) <> InFlight.
Proof.
  intros Hc. unfold signal_aborted. destruct (a_status a) eqn:E.
  - destruct (decide (a_abortController a = Some c)); [discriminate | contradiction].
  - rewrite E. discriminate.
  - rewrite E. discriminate.
Qed.

Lemma signal_aborted_idle c a :
  a_status a <> InFlight -> signal_aborted c a = a.
Proof.
  intros Hs. unfold signal_aborted. destruct (a_status a); [contradiction | reflexivity ..].
Qed.

Lemma cleanup_supersedes e0 w :
  one_owner w -> effect w = Some e0 ->
  forall i a, attempts (exec (cleanup e0) w) !! i = Some a ->
              superseded (exec (cleanup e0) w) a.
Proof.
  intros [_ Hown] He i a'. rewrite run_cleanup. unfold superseded. fields.
  rewrite list_lookup_fmap. destruct (attempts w !! i) as [a |] eqn:Ha;
    [| discriminate].
  intros H. apply (inj Some) in H. subst a'.
  destruct (Hown i a Ha) as [(e & He' & Hc & _) | (c & Hc & Hin & Hs)].
  - rewrite He in He'. apply (inj Some) in He'. subst e.
    exists (eff_abortController e0). rewrite signal_aborted_controller.
    split; [exact Hc |]. split; [apply list_elem_of_here |].
    apply signal_aborted_own, Hc.
  - exists c. rewrite (signal_aborted_idle _ _ Hs).
    split; [exact Hc |]. split; [apply list_elem_of_further, Hin | exact Hs].
Qed.

Section Production.

Hypothesis production_mode : isProduction cfg = true.

Lemma run_effect_one_owner p now w :
  (forall i a, attempts w !! i = Some a -> superseded w a) ->
  one_owner (exec (run_effect p now) w).
Proof.
  intros Hsup. destruct (decide (url p = EmptyString)) as [Hu | Hu].
  - rewrite (run_effect_empty _ _ _ Hu). split; [discriminate |].
    fields. intros i a Ha. right. apply (Hsup i a Ha).
  - rewrite (run_effect_fetch _ _ _ Hu). split; [discriminate |].
    unfold current. fields. intros i a Ha.
    apply lookup_snoc_Some in Ha. destruct Ha as [[_ Ha] | [-> <-]].
    + right. apply (Hsup i a Ha).
    + left. eexists. split; [reflexivity |]. cbn. rewrite production_mode.
      rewrite length_app. cbn. repeat split. lia.
Qed.

Lemma settle_one_owner id a now o w :
  attempts w !! id = Some a -> one_owner w ->
  one_owner (exec (settle id a now o) w).
Proof.
  intros Ha [Hm Hown].
  assert (E : exists h r c, exec (settle id a now o) w =
            {| hook := h; returned := r; calls := c;
               attempts := <[id := with_status Settled a]> (attempts w);
               controllers := controllers w; aborted := aborted w;
               effect := effect w; unmounted := unmounted w |}).
  { destruct o as [[logs t] | err];
      [rewrite settle_fulfilled | rewrite settle_rejected]; eauto. }
  destruct E as (h & r & c & ->). split; [exact Hm |].
  unfold current, superseded. fields. rewrite length_insert.
  intros i x Hx. apply list_lookup_insert_Some in Hx.
  destruct Hx as [(<- & <- & _) | (_ & Hx)]; [| apply (Hown i x Hx)].
  destruct (Hown id a Ha) as [(e & He & Hc & Hu & Hl) | (c0 & Hc & Hin & _)].
  - left. exists e. auto.
  - right. exists c0. repeat split; [exact Hc | exact Hin | discriminate].
Qed.

Lemma step_one_owner w ev w' : one_owner w -> step w ev = Some w' -> one_owner w'.
Proof.
  intros Hown H. apply step_inv in H. destruct ev as [p now | | id fev now].
  - destruct H as [_ H]. destruct (effect w) as [e0 |] eqn:He.
    + destruct H as [[_ ->] | [_ ->]]; [exact Hown |].
      apply run_effect_one_owner, (cleanup_supersedes e0 w Hown He).
    + subst w'. apply run_effect_one_owner. intros i a Ha.
      destruct Hown as [_ Hown].
      destruct (Hown i a Ha) as [(e & He' & _) | Hs]; [| exact Hs].
      rewrite He in He'. discriminate He'.
  - destruct H as [_ (e0 & He & ->)].
    pose proof (cleanup_supersedes e0 w Hown He) as Hsup.
    split; [reflexivity |]. intros i a Ha. right. apply (Hsup i a Ha).
  - destruct H as (a & Ha & H). destruct fev; destruct H as [Hs ->].
    + rewrite on_progress. exact Hown.
    + rewrite on_incomplete. exact Hown.
    + apply settle_one_owner; [exact Ha | exact Hown].
    + apply settle_one_owner; [exact Ha | exact Hown].
Qed.

Lemma run_one_owner evs w :
  run (initial_world cfg) evs = Some w -> one_owner w.
Proof.
  apply (run_invariant one_owner).
  - intros w0 ev w1. apply step_one_owner.
  - split; [discriminate |]. intros i a Ha. discriminate Ha.
Qed.

(** C1 (amended): in production, where the effect hands its controller to the
    fetch, at most one attempt is in flight after every history of a hook
    instance; an attempt that is in flight is the latest one and fetches the
    URL of the installed effect; every earlier attempt was handed a controller
    that has been aborted and is no longer in flight; and after teardown no
    attempt is in flight. *)
Theorem production_one_attempt_in_flight evs w :
  run (initial_world cfg) evs = Some w ->
  (length (in_flight w) <= 1)%nat /\
  (forall i a, attempts w !! i = Some a -> a_status a = InFlight ->
     S i = length (attempts w) /\
     exists e, effect w = Some e /\ a_url a = eff_url e) /\
  (forall i a, attempts w !! i = Some a -> (S i < length (attempts w))%nat ->
     exists c, a_abortController a = Some c /\ c ∈ aborted w /\
               a_status a <> InFlight) /\
  (unmounted w = true -> in_flight w = []).
Proof.
  intros Hrun. destruct (run_one_owner evs w Hrun) as [Hm Hown].
  assert (Hfly : forall i a, attempts w !! i = Some a -> a_status a = InFlight ->
                             current w i a).
  { intros i a Ha Hs. destruct (Hown i a Ha) as [Hc | (c & _ & _ & Hn)];
      [exact Hc | contradiction]. }
  split; [| split; [| split]].
  - apply filter_only_last. intros i a Ha Hs.
    destruct (Hfly i a Ha Hs) as (e & _ & _ & _ & Hl). exact Hl.
  - intros i a Ha Hs. destruct (Hfly i a Ha Hs) as (e & He & _ & Hu & Hl).
    split; [exact Hl | exists e; auto].
  - intros i a Ha Hlt. destruct (Hown i a Ha) as [(e & _ & _ & _ & Hl) | Hs];
      [lia | exact Hs].
  - intros Hu. apply filter_none. intros i a Ha Hs.
    destruct (Hfly i a Ha Hs) as (e & He & _). rewrite (Hm Hu) in He.
    discriminate He.
Qed.

End Production.

End Properties.

(** ** [initializeSentry] *)

Section SentryProperties.

Context {S Exn : Type}.
Variable init : Sentry.InitOptions -> @Sentry.J S Exn unit.
Variables (isProduction : @Sentry.J S Exn bool)
          (getSentryDSN getReleaseStage : @Sentry.J S Exn string).

Local Abbreviation initializeSentry :=
  (Sentry.initializeSentry init isProduction getSentryDSN getReleaseStage).
Local Abbreviation init_call :=
  (Sentry.init_call init isProduction getSentryDSN getReleaseStage).

(** C10: whatever [init] and the environment getters do, [initializeSentry]
    returns normally: when the statement in [try] returns, so does the
    function, with the same environment; when it throws [e], in particular
    when [init] itself throws, the function writes 'Failed to initialize
    Sentry' and [e] to the console and returns. *)
Theorem initializeSentry_never_throws (env : Sentry.Env) :
  (exists env', initializeSentry env = (inl tt, env')) /\
  (forall env1, init_call env = (inl tt, env1) ->
     initializeSentry env = (inl tt, env1)) /\
  (forall e env1, init_call env = (inr e, env1) ->
     initializeSentry env =
     (inl tt, {| Sentry.sdk := Sentry.sdk env1;
                 Sentry.console :=
                   (Sentry.console env1 ++ [("Failed to initialize Sentry", e)])%list |})) /\
  (forall b d r e env1 env2 env3 env4,
     isProduction env = (inl b, env1) ->
     getSentryDSN env1 = (inl d, env2) ->
     getReleaseStage env2 = (inl r, env3) ->
     init {| Sentry.debug := negb b; Sentry.dsn := d;
             Sentry.environment :=
               if decide (r = EmptyString) then "development" else r;
             Sentry.normalizeDepth := 5 |} env3 = (inr e, env4) ->
     initializeSentry env =
     (inl tt, {| Sentry.sdk := Sentry.sdk env4;
                 Sentry.console :=
                   (Sentry.console env4 ++ [("Failed to initialize Sentry", e)])%list |})).
Proof.
  unfold Sentry.initializeSentry, Sentry.try_catch.
  split; [| split; [| split]].
  - destruct (init_call env) as [[[] | e] env1]; eexists; reflexivity.
  - intros env1 ->. reflexivity.
  - intros e env1 ->. reflexivity.
  - intros b d r e env1 env2 env3 env4 H1 H2 H3 H4.
    unfold Sentry.init_call, mbind, Sentry.J_bind.
    rewrite H1, H2, H3, H4. reflexivity.
Qed.

End SentryProperties.

(** * The properties at concrete histories *)

Lemma production_one_attempt_in_flight_witness :
  isProduction production = true /\
  run (initial_world production)
    [Render (props production "task" "a") 0;
     Render (props production "task" "b") 1] = Some superseded_world /\
  (length (in_flight superseded_world) <= 1)%nat.
Proof.
  split; [reflexivity |].
  assert (Hrun : run (initial_world production)
                   [Render (props production "task" "a") 0;
                    Render (props production "task" "b") 1]
                 = Some superseded_world) by (vm_compute; reflexivity).
  split; [exact Hrun |].
  apply (production_one_attempt_in_flight (cfg := production) eq_refl _ _ Hrun).
Defined.

(** C1, as stated, fails in development: the effect does not hand its
    controller to the fetch there, so after a URL change both attempts are in
    flight, and after teardown the attempt is still in flight. *)
Lemma development_two_attempts_in_flight :
  statuses <$>
    run (initial_world development)
      [Render (props development "task" "a") 0;
       Render (props development "task" "b") 1]
  = Some [InFlight; InFlight] /\
  statuses <$>
    run (initial_world development)
      [Render (props development "task" "a") 0; Unmount]
  = Some [InFlight].
Proof. split; vm_compute; reflexivity. Qed.

Lemma line_length_warning_is_emitted_witness :
  attempts first_attempt_world !! 0%nat = Some first_attempt /\
  a_status first_attempt = InFlight /\ 2 <> 0 /\
  exists w' pre post,
    step first_attempt_world (Fetch 0 (Resolve ["x"; EmptyString] 2) 7)
    = Some w' /\
    calls w' = (calls first_attempt_world ++ pre ++
      [CallSendEvent (@LogDownloadIncomplete production 0 7
                        "Log line size limit exceeded");
       CallReportWarning (new_Error "Incomplete download")
         (Some {| md_message := "Log line size limit exceeded";
                  md_metadata := MdTrimmed 2 "a";
                  md_name := "Log download incomplete" |});
       CallToastWarning "A log line is too long" true false
         "Log not fully downloaded"] ++ post)%list.
Proof.
  split; [reflexivity |]. split; [reflexivity |]. split; [discriminate |].
  apply (line_length_warning_is_emitted first_attempt_world 0%nat
           first_attempt 7 ["x"; EmptyString] 2 eq_refl eq_refl).
  discriminate.
Defined.

Lemma cancelled_attempt_outcome_witness :
  attempts superseded_world !! 0%nat = Some cancelled_attempt /\
  a_status cancelled_attempt = Cancelled /\
  unmounted superseded_world = false /\
  attempts unmounted_world !! 0%nat = Some unmounted_attempt /\
  a_status unmounted_attempt = Cancelled /\
  unmounted unmounted_world = true /\
  (exists w',
     step superseded_world (Fetch 0 (Reject AbortError) 2) = Some w' /\
     data (returned w') = None /\
     error (returned w') = Some "The user aborted a request.") /\
  (exists w',
     step unmounted_world (Fetch 0 (Reject AbortError) 2) = Some w' /\
     returned w' = returned unmounted_world).
Proof.
  repeat (split; [reflexivity |]). split.
  - destruct (cancelled_attempt_outcome superseded_world 0%nat
                cancelled_attempt 2 AbortError eq_refl eq_refl)
      as (_ & w' & new & E & Hd & _ & _ & _ & _ & He).
    exists w'. split; [exact E |]. split; [exact Hd | exact (He eq_refl)].
  - destruct (cancelled_attempt_outcome unmounted_world 0%nat
                unmounted_attempt 2 AbortError eq_refl eq_refl)
      as (_ & w' & new & E & _ & _ & _ & _ & Hu & _).
    exists w'. split; [exact E | exact (Hu eq_refl)].
Defined.

(** C3, as stated, fails: in production a URL change cancels the first
    attempt, and when its fetch rejects the [error] the hook returns is the
    message of the cancellation. *)
Lemma cancellation_sets_error :
  statuses <$>
    run (initial_world production)
      [Render (props production "task" "a") 0;
       Render (props production "task" "b") 1]
  = Some [Cancelled; InFlight] /\
  (fun w => (unmounted w, error (returned w))) <$>
    run (initial_world production) superseding_history
  = Some (false, Some "The user aborted a request.").
Proof. split; vm_compute; reflexivity. Qed.

Lemma data_drops_one_trailing_empty_line_witness :
  attempts first_attempt_world !! 0%nat = Some first_attempt /\
  a_status first_attempt = InFlight /\
  exists w',
    step first_attempt_world (Fetch 0 (Resolve ["x"; EmptyString] 0) 7)
    = Some w' /\
    data (hook w') = Some ["x"].
Proof.
  split; [reflexivity |]. split; [reflexivity |].
  destruct (data_drops_one_trailing_empty_line first_attempt_world 0%nat
              first_attempt 7 ["x"; EmptyString] 0 eq_refl eq_refl)
    as (w' & E & Hd & _).
  exists w'. split; [exact E | exact (Hd ["x"] eq_refl)].
Defined.



Lemma log_downloaded_once_per_attempt_witness :
  attempts first_attempt_world !! 0%nat = Some first_attempt /\
  settles (a_status first_attempt) (Resolve ["x"] 0) = true /\
  exists w' pre,
    step first_attempt_world (Fetch 0 (Resolve ["x"] 0) 7) = Some w' /\
    calls w' = (calls first_attempt_world ++ pre ++
      [CallLeaveBreadcrumb "useLogDownloader" (BcFinished "some bytes" 7 "a")
         SentryBreadcrumb_HTTP;
       CallSendEvent (@LogDownloaded production 7 0 "task");
       CallSetIsLoading false])%list /\
    count_calls is_LogDownloaded pre = 0%nat.
Proof.
  split; [reflexivity |]. split; [reflexivity |].
  destruct (log_downloaded_once_per_attempt (cfg := production))
    as (Hsettle & _ & _).
  destruct (Hsettle first_attempt_world 0%nat first_attempt 7
              (Resolve ["x"] 0) eq_refl eq_refl)
    as (w' & pre & E & Hc & Hn & _).
  exists w', pre. split; [exact E |]. split; [exact Hc | exact Hn].
Defined.

Lemma transport_failure_sets_error_witness :
  attempts first_attempt_world !! 0%nat = Some first_attempt /\
  a_status first_attempt = InFlight /\
  exists w',
    step first_attempt_world (Fetch 0 (Reject NetworkError) 7) = Some w' /\
    error (hook w') = Some "Failed to fetch" /\
    data (hook w') = None.
Proof.
  split; [reflexivity |]. split; [reflexivity |].
  destruct (transport_failure_sets_error first_attempt_world 0%nat
              first_attempt 7 NetworkError eq_refl eq_refl)
    as (w' & new & E & He & Hd & _).
  exists w'. split; [exact E |]. split; [exact He | exact Hd].
Defined.

Lemma fileSize_accumulates_progress_witness :
  run (initial_world development) overlapping_history = Some overlapped_world /\
  fileSize (hook overlapped_world)
  = fileSize (hook (initial_world development)) + delivered overlapping_history.
Proof.
  assert (Hrun : run (initial_world development) overlapping_history
                 = Some overlapped_world) by (vm_compute; reflexivity).
  split; [exact Hrun |].
  destruct (fileSize_accumulates_progress _ _ _ Hrun) as [H _].
  exact H.
Defined.

(** C8, as stated, fails in development: the first attempt is not cancelled
    by the URL change, both attempts add to the one counter, and [fileSize]
    is the sum of the two, not the bytes either attempt has received. *)
Lemma fileSize_is_not_the_bytes_of_one_attempt :
  statuses <$> run (initial_world development) overlapping_history
  = Some [InFlight; InFlight] /\
  (fun w => fileSize (hook w)) <$>
    run (initial_world development) overlapping_history = Some 15 /\
  received 0 overlapping_history = 10 /\
  received 1 overlapping_history = 5.
Proof. repeat split; vm_compute; reflexivity. Qed.

(** The counter is never set back: after [consecutive_history] the second
    attempt has received 5 bytes and [fileSize] is 15. *)
Lemma fileSize_is_kept_between_attempts :
  (fun w => fileSize (hook w)) <$>
    run (initial_world production) consecutive_history = Some 15 /\
  received 1 consecutive_history = 5.
Proof. split; vm_compute; reflexivity. Qed.

Lemma empty_url_starts_nothing_witness :
  url (props production "task" EmptyString) = EmptyString /\
  exists w0,
    step (initial_world production)
      (Render (props production "task" EmptyString) 0)
    = Some w0.
Proof.
  split; [reflexivity |].
  destruct (empty_url_starts_nothing
              (props production "task" EmptyString) 0 eq_refl)
    as (_ & Hmount & _).
  exact Hmount.
Defined.

Lemma initializeSentry_never_throws_witness :
  Sentry.init_call throwing_init (constant true) (constant "https://dsn")
    (constant EmptyString) empty_console
  = (inr "invalid dsn https://dsn", empty_console) /\
  Sentry.initializeSentry throwing_init (constant true)
    (constant "https://dsn") (constant EmptyString) empty_console
  = (inl tt,
     {| Sentry.sdk := tt;
        Sentry.console :=
          [("Failed to initialize Sentry", "invalid dsn https://dsn")] |}).
Proof.
  split; [reflexivity |].
  destruct (initializeSentry_never_throws throwing_init (constant true)
              (constant "https://dsn") (constant EmptyString) empty_console)
    as (_ & _ & Hthrow & _).
  exact (Hthrow "invalid dsn https://dsn" empty_console eq_refl).
Defined.

(** * Further properties of the hook *)

Section MoreProperties.

Context {cfg : Config}.
Local Open Scope list_scope.
Implicit Types (w : World cfg) (a : Attempt cfg) (p : UseLogDownloader cfg).

Ltac fields :=
  cbn [hook returned calls attempts controllers aborted effect unmounted
       data error fileSize isLoading].

(** ** Every step, as the calls it adds *)

Lemma run_effect_hook p now w :
  exists l, hook (exec (run_effect p now) w)
            = {| data := data (hook w); error := error (hook w);
                 fileSize := fileSize (hook w); isLoading := l |} /\
            (l = true \/ l = isLoading (hook w)).
Proof.
  destruct (decide (url p = EmptyString)) as [Hu | Hu].
  - rewrite (run_effect_empty _ _ _ Hu). fields.
    exists (isLoading (hook w)). split; [destruct (hook w); reflexivity | auto].
  - rewrite (run_effect_fetch _ _ _ Hu). fields. exists true. auto.
Qed.

Lemma run_effect_calls p now w :
  calls (exec (run_effect p now) w) =
  calls w ++
    CallLeaveBreadcrumb "useLogDownloader" (BcStart (url p)) SentryBreadcrumb_HTTP
    :: (if decide (url p = EmptyString) then [] else [CallSetIsLoading true]).
Proof.
  destruct (decide (url p = EmptyString)) as [Hu | Hu].
  - rewrite (run_effect_empty _ _ _ Hu). reflexivity.
  - rewrite (run_effect_fetch _ _ _ Hu). reflexivity.
Qed.

Lemma step_calls w ev w' :
  step w ev = Some w' -> calls w' = calls w ++ new_calls w ev.
Proof.
  intros H. apply step_inv in H. destruct ev as [p now | | id fev now];
    unfold new_calls, effect_runs.
  - destruct H as [_ H]. destruct (effect w) as [e0 |].
    + destruct H as [[Heq ->] | [Hne ->]].
      * rewrite bool_decide_eq_true_2 by exact Heq. cbn [negb].
        rewrite app_nil_r. reflexivity.
      * rewrite bool_decide_eq_false_2 by exact Hne. cbn [negb].
        rewrite run_effect_calls, run_cleanup. reflexivity.
    + subst w'. apply run_effect_calls.
  - destruct H as [_ (e0 & _ & ->)]. rewrite app_nil_r. reflexivity.
  - destruct H as (a & Ha & H). rewrite Ha.
    destruct fev; destruct H as [_ ->].
    + rewrite on_progress. reflexivity.
    + rewrite on_incomplete. reflexivity.
    + rewrite settle_fulfilled. reflexivity.
    + rewrite settle_rejected. reflexivity.
Qed.

(** ** Nothing is ever reset *)

Lemma step_keeps_results w ev w' :
  step w ev = Some w' ->
  (data (hook w') = data (hook w) \/
   exists id logs t now, ev = Fetch id (Resolve logs t) now /\
                         data (hook w') = Some (pop_if_last_empty logs)) /\
  (error (hook w') = error (hook w) \/
   exists id err now, ev = Fetch id (Reject err) now /\
                      error (hook w') = Some (err_message err)).
Proof.
  intros H. apply step_inv in H. destruct ev as [p now | | id fev now].
  - destruct H as [_ H]. destruct (effect w) as [e0 |].
    + destruct H as [[_ ->] | [_ ->]]; [auto |].
      destruct (run_effect_hook p now (exec (cleanup e0) w)) as (l & -> & _).
      auto.
    + subst w'. destruct (run_effect_hook p now w) as (l & -> & _). auto.
  - destruct H as [_ (e0 & _ & ->)]. auto.
  - destruct H as (a & _ & H). destruct fev; destruct H as [_ ->].
    + rewrite on_progress. auto.
    + rewrite on_incomplete. auto.
    + rewrite settle_fulfilled. fields. split; [right | left]; eauto 6.
    + rewrite settle_rejected. fields. split; [left | right]; eauto 6.
Qed.

(** X1: the hook never resets its results.  A render, also one that changes
    the URL, and an unmount leave [data], [error] and [fileSize] exactly as
    they were; and over any history [data] and [error], once defined, stay
    defined: only a later resolve replaces [data] and only a later rejection
    replaces [error]. *)
Theorem results_are_never_reset :
  (forall w p now w',
     step w (Render p now) = Some w' ->
     data (hook w') = data (hook w) /\ error (hook w') = error (hook w) /\
     fileSize (hook w') = fileSize (hook w)) /\
  (forall w w', step w Unmount = Some w' -> hook w' = hook w) /\
  (forall w id logs t now w',
     step w (Fetch id (Resolve logs t) now) = Some w' ->
     error (hook w') = error (hook w)) /\
  (forall w evs w',
     run w evs = Some w' ->
     (is_Some (data (hook w)) -> is_Some (data (hook w'))) /\
     (is_Some (error (hook w)) -> is_Some (error (hook w')))).
Proof.
  split; [| split; [| split]].
  - intros w p now w' H.
    pose proof (step_fileSize _ _ _ H) as Hf.
    destruct (step_keeps_results _ _ _ H) as [Hd He].
    split; [| split].
    + destruct Hd as [Hd | (? & ? & ? & ? & [=] & _)]. exact Hd.
    + destruct He as [He | (? & ? & ? & [=] & _)]. exact He.
    + rewrite Hf. cbn. lia.
  - intros w w' H. apply step_inv in H. destruct H as [_ (e0 & _ & ->)].
    reflexivity.
  - intros w id logs t now w' H.
    destruct (step_keeps_results _ _ _ H) as [_ [He | (? & ? & ? & [=] & _)]].
    exact He.
  - intros w evs w' Hrun.
    apply (run_invariant
             (fun w1 => (is_Some (data (hook w)) -> is_Some (data (hook w1))) /\
                        (is_Some (error (hook w)) -> is_Some (error (hook w1))))
             ) with (evs := evs) (w := w); [| auto | exact Hrun].
    intros w1 ev w2 [Hd He] H.
    destruct (step_keeps_results _ _ _ H) as [Hd' He']. split.
    + intros Hs. destruct Hd' as [-> | (? & ? & ? & ? & _ & ->)]; eauto.
    + intros Hs. destruct He' as [-> | (? & ? & ? & _ & ->)]; eauto.
Qed.

(** ** The loading flag *)

Lemma pending_after_abort c (l : list (Attempt cfg)) i a :
  l !! i = Some a -> a_status a <> Settled ->
  exists a', (signal_aborted c <$> l) !! i = Some a' /\ a_status a' <> Settled.
Proof.
  intros Ha Hs. exists (signal_aborted c a). rewrite list_lookup_fmap, Ha.
  split; [reflexivity |]. rewrite signal_aborted_settled. exact Hs.
Qed.

Lemma run_effect_pending p now w :
  (isLoading (hook w) = true -> pending w) ->
  isLoading (hook (exec (run_effect p now) w)) = true ->
  pending (exec (run_effect p now) w).
Proof.
  unfold pending. destruct (decide (url p = EmptyString)) as [Hu | Hu].
  - rewrite (run_effect_empty _ _ _ Hu). fields. auto.
  - rewrite (run_effect_fetch _ _ _ Hu). fields. intros _ _.
    eexists (length (attempts w)), _. split.
    + rewrite lookup_app_r, Nat.sub_diag by lia. reflexivity.
    + discriminate.
Qed.

Lemma step_loading_pending w ev w' :
  (isLoading (hook w) = true -> pending w) -> step w ev = Some w' ->
  isLoading (hook w') = true -> pending w'.
Proof.
  intros HP H. apply step_inv in H. destruct ev as [p now | | id fev now].
  - destruct H as [_ H]. destruct (effect w) as [e0 |].
    + destruct H as [[_ ->] | [_ ->]]; [exact HP |].
      apply run_effect_pending. rewrite run_cleanup. unfold pending. fields.
      intros Hl. destruct (HP Hl) as (i & a & Ha & Hs).
      destruct (pending_after_abort (eff_abortController e0) _ i a Ha Hs)
        as (a' & Ha' & Hs'). eauto.
    + subst w'. apply run_effect_pending, HP.
  - destruct H as [_ (e0 & _ & ->)]. rewrite run_cleanup. unfold pending.
    cbn. intros Hl. destruct (HP Hl) as (i & a & Ha & Hs).
    destruct (pending_after_abort (eff_abortController e0) _ i a Ha Hs)
      as (a' & Ha' & Hs'). eauto.
  - destruct H as (a & Ha & H). destruct fev; destruct H as [Hs ->].
    + rewrite on_progress. exact HP.
    + rewrite on_incomplete. exact HP.
    + rewrite settle_fulfilled. discriminate.
    + rewrite settle_rejected. discriminate.
Qed.

(** X2: while the hook is mounted, [isLoading] is never left on: after
    every history that has not torn the hook down, if the [isLoading] it
    returns is true then some attempt has not settled yet; so once every
    attempt has settled, [isLoading] is false. *)
Theorem loading_means_pending evs w :
  run (initial_world cfg) evs = Some w -> unmounted w = false ->
  (isLoading (returned w) = true -> pending w) /\
  (Forall (fun a => a_status a = Settled) (attempts w) ->
   isLoading (returned w) = false).
Proof.
  intros Hrun Hm. rewrite (run_returned evs w Hrun Hm).
  assert (HP : isLoading (hook w) = true -> pending w).
  { apply (run_invariant (fun w => isLoading (hook w) = true -> pending w))
      with (evs := evs) (w := initial_world cfg); [| discriminate | exact Hrun].
    intros w1 ev w2. apply step_loading_pending. }
  split; [exact HP |].
  intros Hall. destruct (isLoading (hook w)) eqn:E; [| reflexivity].
  destruct (HP eq_refl) as (i & a & Ha & Hs).
  rewrite Forall_lookup in Hall. destruct (Hs (Hall i a Ha)).
Qed.

(** ** What the closures of an attempt captured *)

Lemma render_same_url w p now e0 :
  unmounted w = false -> effect w = Some e0 -> eff_url e0 = url p ->
  step w (Render p now) = Some w.
Proof.
  intros Hm He Hu. unfold step, render. rewrite Hm, He.
  destruct (decide (eff_url e0 = url p)); [reflexivity | contradiction].
Qed.

(** X3: the effect depends on [url] alone.  Once an attempt is started with
    props [p], a render with other props for the same URL changes nothing at
    all, and when the attempt settles its cleanup still reports the [logType]
    of [p], the URL of [p], and the time since the effect of [p] ran. *)
Theorem attempt_keeps_the_props_it_started_with w p p' now now1 now2 ev :
  url p <> EmptyString -> unmounted w = false ->
  (forall e0, effect w = Some e0 -> eff_url e0 <> url p) ->
  url p' = url p -> settles InFlight ev = true ->
  exists w1 w2 pre,
    step w (Render p now) = Some w1 /\
    step w1 (Render p' now1) = Some w1 /\
    step w1 (Fetch (length (attempts w)) ev now2) = Some w2 /\
    calls w2 = calls w1 ++ pre ++
      [CallLeaveBreadcrumb "useLogDownloader"
         (BcFinished (getBytesAsString cfg (fileSize (hook w)))
            (now2 - now) (url p)) SentryBreadcrumb_HTTP;
       CallSendEvent (LogDownloaded (now2 - now) (fileSize (hook w)) (logType p));
       CallSetIsLoading false].
Proof.
  intros Hu Hm He Hp' Hev.
  destruct (render_starts_attempt w p now Hu Hm He) as (w0 & E & Eh & Ec & El).
  pose proof (run_effect_fetch p now w0 Hu) as Ew.
  set (w1 := exec (run_effect p now) w0) in *.
  set (a := {| a_url := url p; a_logType := logType p; a_timeStart := now;
               a_abortController :=
                 if isProduction cfg then Some (controllers w0) else None;
               a_downloadSizeLimit :=
                 default (LOG_FILE_SIZE_LIMIT cfg) (downloadSizeLimit p);
               a_status := InFlight |}) in *.
  assert (Ha : attempts w1 !! length (attempts w) = Some a).
  { rewrite Ew. fields. rewrite <- El.
    rewrite lookup_app_r, Nat.sub_diag by lia. reflexivity. }
  destruct (step_settles w1 _ a now2 ev Ha Hev) as (o & _ & Es).
  destruct (settle_shape (length (attempts w)) a now2 o w1)
    as (pre & Ecalls & _).
  exists w1, (exec (settle (length (attempts w)) a now2 o) w1), pre.
  split; [exact E |]. split; [| split; [exact Es |]].
  - apply (render_same_url w1 p' now1 {| eff_url := url p;
             eff_abortController := controllers w0 |});
      [rewrite Ew; reflexivity | rewrite Ew; reflexivity | symmetry; exact Hp'].
  - rewrite Ecalls. unfold finally_calls. subst a. cbn [a_timeStart a_url a_logType].
    replace (fileSize (hook w1)) with (fileSize (hook w)); [reflexivity |].
    rewrite Ew. fields. rewrite Eh. reflexivity.
Qed.

(** ** Development: no attempt is ever cancelled *)

Section Development.

Hypothesis development_mode : isProduction cfg = false.

Lemma signal_aborted_unseen c a :
  a_abortController a = None -> signal_aborted c a = a.
Proof.
  intros Hc. unfold signal_aborted. destruct (a_status a); [| reflexivity ..].
  rewrite Hc. destruct (decide (None = Some c)); [discriminate | reflexivity].
Qed.

Lemma cleanup_unseen e0 w :
  never_signalled w -> attempts (exec (cleanup e0) w) = attempts w.
Proof.
  intros Hn. rewrite run_cleanup. fields.
  apply list_eq. intros i. rewrite list_lookup_fmap.
  destruct (attempts w !! i) as [a |] eqn:Ha; [| reflexivity].
  cbn. rewrite signal_aborted_unseen; [reflexivity | apply (Hn i a Ha)].
Qed.

Lemma run_effect_never_signalled p now w :
  never_signalled w -> never_signalled (exec (run_effect p now) w).
Proof.
  intros Hn. unfold never_signalled.
  destruct (decide (url p = EmptyString)) as [Hu | Hu].
  - rewrite (run_effect_empty _ _ _ Hu). exact Hn.
  - rewrite (run_effect_fetch _ _ _ Hu). fields. intros i a Ha.
    apply lookup_snoc_Some in Ha. destruct Ha as [[_ Ha] | [_ <-]].
    + apply (Hn i a Ha).
    + cbn. rewrite development_mode. split; [reflexivity | discriminate].
Qed.

Lemma settle_never_signalled id a now o w :
  attempts w !! id = Some a -> never_signalled w ->
  never_signalled (exec (settle id a now o) w).
Proof.
  intros Ha Hn.
  destruct (settle_shape id a now o w) as (_ & _ & _ & _ & _ & E).
  unfold never_signalled. rewrite E. intros i x Hx.
  apply list_lookup_insert_Some in Hx.
  destruct Hx as [(<- & <- & _) | (_ & Hx)]; [| apply (Hn i x Hx)].
  split; [apply (Hn id a Ha) | discriminate].
Qed.

Lemma step_never_signalled w ev w' :
  never_signalled w -> step w ev = Some w' ->
  never_signalled w' /\
  ((forall id fev now, ev <> Fetch id fev now) ->
   forall i a, attempts w !! i = Some a -> attempts w' !! i = Some a).
Proof.
  intros Hn H. apply step_inv in H. destruct ev as [p now | | id fev now].
  - destruct H as [_ H]. destruct (effect w) as [e0 |].
    + destruct H as [[_ ->] | [_ ->]]; [auto |]. split.
      * apply run_effect_never_signalled. unfold never_signalled.
        rewrite (cleanup_unseen e0 w Hn). exact Hn.
      * intros _ i a Ha. rewrite <- (cleanup_unseen e0 w Hn) in Ha.
        destruct (decide (url p = EmptyString)) as [Hu | Hu];
          [rewrite (run_effect_empty _ _ _ Hu) | rewrite (run_effect_fetch _ _ _ Hu)];
          fields; [exact Ha |].
        apply lookup_app_l_Some, Ha.
    + subst w'. split; [apply run_effect_never_signalled, Hn |].
      intros _ i a Ha.
      destruct (decide (url p = EmptyString)) as [Hu | Hu];
        [rewrite (run_effect_empty _ _ _ Hu) | rewrite (run_effect_fetch _ _ _ Hu)];
        fields; [exact Ha |].
      apply lookup_app_l_Some, Ha.
  - destruct H as [_ (e0 & _ & ->)].
    assert (E : attempts (exec (set_effect None true) (exec (cleanup e0) w))
                = attempts w) by apply (cleanup_unseen e0 w Hn).
    split; [unfold never_signalled; rewrite E; exact Hn |].
    intros _ i a Ha. rewrite E. exact Ha.
  - split; [| intros Hev; destruct (Hev _ _ _ eq_refl)].
    destruct H as (a & Ha & H). destruct fev; destruct H as [Hs ->].
    + rewrite on_progress. exact Hn.
    + rewrite on_incomplete. exact Hn.
    + apply settle_never_signalled; [exact Ha | exact Hn].
    + apply settle_never_signalled; [exact Ha | exact Hn].
Qed.

Lemma run_never_signalled evs w :
  run (initial_world cfg) evs = Some w -> never_signalled w.
Proof.
  apply (run_invariant never_signalled).
  - intros w0 ev w1 Hn H. apply (step_never_signalled w0 ev w1 Hn H).
  - intros i a Ha. discriminate Ha.
Qed.

(** X4: outside production the cleanup cancels nothing.  After every history
    no attempt was handed a controller and none is cancelled; a URL change or
    an unmount leaves every attempt exactly as it was; and while the hook is
    mounted an attempt that is still in flight, also one of an earlier URL,
    can still resolve, and its lines become the [data] the hook returns. *)
Theorem development_never_cancels evs w :
  run (initial_world cfg) evs = Some w ->
  (forall i a, attempts w !! i = Some a ->
     a_abortController a = None /\ a_status a <> Cancelled) /\
  (forall p now w' i a,
     step w (Render p now) = Some w' ->
     attempts w !! i = Some a -> attempts w' !! i = Some a) /\
  (forall w' i a,
     step w Unmount = Some w' ->
     attempts w !! i = Some a -> attempts w' !! i = Some a) /\
  (forall i a logs t now,
     unmounted w = false ->
     attempts w !! i = Some a -> a_status a = InFlight ->
     exists w', step w (Fetch i (Resolve logs t) now) = Some w' /\
                data (returned w') = Some (pop_if_last_empty logs) /\
                data (hook w') = Some (pop_if_last_empty logs)).
Proof.
  intros Hrun. pose proof (run_never_signalled evs w Hrun) as Hn.
  split; [exact Hn |]. split; [| split].
  - intros p now w' i a H.
    destruct (step_never_signalled w _ w' Hn H) as [_ Hk]. apply Hk.
    discriminate.
  - intros w' i a H.
    destruct (step_never_signalled w _ w' Hn H) as [_ Hk]. apply Hk.
    discriminate.
  - intros i a logs t now Hm Ha Hs. eexists. split.
    + apply (step_resolve _ _ _ _ _ _ Ha Hs).
    + rewrite settle_returned, Hm, settle_fulfilled. split; reflexivity.
Qed.

End Development.

(** ** The controller of the installed effect *)

Lemma signal_aborted_cancelled c a :
  a_status (signal_aborted c a) = Cancelled ->
  a_status a = Cancelled \/ a_abortController a = Some c.
Proof.
  unfold signal_aborted. destruct (a_status a) eqn:E.
  - destruct (decide (a_abortController a = Some c)); [auto |].
    rewrite E. discriminate.
  - auto.
  - rewrite E. discriminate.
Qed.

Lemma cleanup_aborted_are_old e0 w :
  aborted_are_old w -> installed_is_live w -> effect w = Some e0 ->
  aborted_are_old (exec (cleanup e0) w).
Proof.
  intros [Hold Hc] Hlive He. destruct (Hlive e0 He) as [Hlt _].
  rewrite run_cleanup. split; fields.
  - intros c Hin. apply elem_of_cons in Hin. destruct Hin as [-> | Hin];
      [exact Hlt | apply (Hold c Hin)].
  - intros i a'. rewrite list_lookup_fmap.
    destruct (attempts w !! i) as [a |] eqn:Ha; [| discriminate].
    intros H Hs. apply (inj Some) in H. subst a'.
    rewrite signal_aborted_controller.
    destruct (signal_aborted_cancelled _ _ Hs) as [Hs' | Hown].
    + destruct (Hc i a Ha Hs') as (c & Hca & Hin). exists c.
      split; [exact Hca | apply list_elem_of_further, Hin].
    + exists (eff_abortController e0).
      split; [exact Hown | apply list_elem_of_here].
Qed.

Lemma run_effect_live p now w :
  aborted_are_old w ->
  aborted_are_old (exec (run_effect p now) w) /\
  installed_is_live (exec (run_effect p now) w).
Proof.
  intros [Hold Hc].
  assert (Hfresh : controllers w ∉ aborted w).
  { intros Hin. apply Hold in Hin. lia. }
  unfold aborted_are_old, installed_is_live.
  destruct (decide (url p = EmptyString)) as [Hu | Hu];
    [rewrite (run_effect_empty _ _ _ Hu) | rewrite (run_effect_fetch _ _ _ Hu)];
    fields.
  - split; [split |].
    + intros c Hin. apply Hold in Hin. lia.
    + exact Hc.
    + intros e [= <-]. cbn. split; [lia | exact Hfresh].
  - split; [split |].
    + intros c Hin. apply Hold in Hin. lia.
    + intros i a Ha Hs. apply lookup_snoc_Some in Ha.
      destruct Ha as [[_ Ha] | [_ <-]]; [apply (Hc i a Ha Hs) | discriminate Hs].
    + intros e [= <-]. cbn. split; [lia | exact Hfresh].
Qed.

Lemma settle_live id a now o w :
  aborted_are_old w /\ installed_is_live w ->
  aborted_are_old (exec (settle id a now o) w) /\
  installed_is_live (exec (settle id a now o) w).
Proof.
  intros [[Hold Hc] Hlive].
  assert (E : exists h r c, exec (settle id a now o) w =
            {| hook := h; returned := r; calls := c;
               attempts := <[id := with_status Settled a]> (attempts w);
               controllers := controllers w; aborted := aborted w;
               effect := effect w; unmounted := unmounted w |}).
  { destruct o as [[logs t] | err];
      [rewrite settle_fulfilled | rewrite settle_rejected]; eauto. }
  destruct E as (h & r & c & ->). split; [split |]; fields.
  - exact Hold.
  - intros i x Hx Hs. apply list_lookup_insert_Some in Hx.
    destruct Hx as [(_ & <- & _) | (_ & Hx)];
      [discriminate Hs | apply (Hc i x Hx Hs)].
  - exact Hlive.
Qed.

Lemma step_live w ev w' :
  aborted_are_old w /\ installed_is_live w -> step w ev = Some w' ->
  aborted_are_old w' /\ installed_is_live w'.
Proof.
  intros [Hold Hlive] H. apply step_inv in H.
  destruct ev as [p now | | id fev now].
  - destruct H as [_ H]. destruct (effect w) as [e0 |] eqn:He.
    + destruct H as [[_ ->] | [_ ->]]; [auto |].
      apply run_effect_live, cleanup_aborted_are_old; auto.
    + subst w'. apply run_effect_live, Hold.
  - destruct H as [_ (e0 & He & ->)]. split.
    + apply (cleanup_aborted_are_old e0 w Hold Hlive He).
    + intros e He'. discriminate He'.
  - destruct H as (a & Ha & H). destruct fev; destruct H as [Hs ->].
    + rewrite on_progress. auto.
    + rewrite on_incomplete. auto.
    + apply settle_live. auto.
    + apply settle_live. auto.
Qed.

(** X5: the hook only ever aborts controllers of effects that were replaced
    or torn down.  After every history the controller of the installed effect
    has not been aborted, and no attempt that was handed it is cancelled: the
    attempt for the current URL is in flight or settled. *)
Theorem installed_effect_is_not_aborted evs w e :
  run (initial_world cfg) evs = Some w -> effect w = Some e ->
  (eff_abortController e ∉ aborted w) /\
  (forall i a, attempts w !! i = Some a ->
               a_abortController a = Some (eff_abortController e) ->
               a_status a = InFlight \/ a_status a = Settled).
Proof.
  intros Hrun He.
  assert (Hinv : aborted_are_old w /\ installed_is_live w).
  { apply (run_invariant (fun w => aborted_are_old w /\ installed_is_live w))
      with (evs := evs) (w := initial_world cfg); [| | exact Hrun].
    - intros w0 ev w1. apply step_live.
    - split; [split |].
      + intros c Hin. apply elem_of_nil in Hin. destruct Hin.
      + intros i a Ha. discriminate Ha.
      + intros e0 He0. discriminate He0. }
  destruct Hinv as [[_ Hc] Hlive]. destruct (Hlive e He) as [_ Hnot].
  split; [exact Hnot |]. intros i a Ha Hown.
  destruct (a_status a) eqn:Hs; [auto | | auto].
  destruct (Hc i a Ha Hs) as (c & Hca & Hin).
  rewrite Hown in Hca. injection Hca as <-. contradiction.
Qed.

(** ** Toasts and events over a history *)

Lemma new_calls_known w ev : Forall known_toast (new_calls w ev).
Proof.
  assert (Hsolve : forall l : list (Call cfg),
            (forall c, In c l -> known_toast c) -> Forall known_toast l).
  { intros l Hl. apply Forall_forall. intros c Hc. apply Hl.
    apply list_elem_of_In, Hc. }
  apply Hsolve. unfold new_calls. destruct ev as [p now | | id fev now].
  - destruct (effect_runs w p); [| intros c []].
    destruct (decide (url p = EmptyString));
      intros c Hc; cbn in Hc; intuition (subst; exact I).
  - intros c [].
  - destruct (attempts w !! id) as [a |]; [| intros c []].
    destruct fev as [n | reason e | logs t | err].
    + intros c Hc; cbn in Hc; intuition (subst; exact I).
    + intros c Hc; cbn in Hc; intuition (subst; cbn; auto).
    + destruct (decide (t = 0));
        intros c Hc; cbn in Hc; intuition (subst; cbn; auto).
    + intros c Hc; cbn in Hc; intuition (subst; exact I).
Qed.

Lemma new_calls_toasts w ev :
  count_calls is_toast (new_calls w ev) =
  match ev with
  | Fetch id (IncompleteDownload _ _) _ =>
      match attempts w !! id with Some _ => 1%nat | None => 0%nat end
  | Fetch id (Resolve _ t) _ =>
      match attempts w !! id with
      | Some _ => if decide (t = 0) then 0%nat else 1%nat
      | None => 0%nat
      end
  | _ => 0%nat
  end.
Proof.
  unfold new_calls. destruct ev as [p now | | id fev now].
  - destruct (effect_runs w p); [| reflexivity].
    destruct (decide (url p = EmptyString)); reflexivity.
  - reflexivity.
  - destruct (attempts w !! id) as [a |]; [| destruct fev; reflexivity].
    destruct fev as [n | reason e | logs t | err]; try reflexivity.
    destruct (decide (t = 0)); reflexivity.
Qed.

(** X6: every toast the hook ever shows is one of its two warnings, closable,
    without timeout, titled 'Log not fully downloaded'; a toast is added only
    by an incomplete-download callback (one toast) or by a resolve with
    trimmed lines (one toast): a render, an unmount, a progress notification,
    a clean resolve and a rejection add none. *)
Theorem toasts_are_the_two_warnings :
  (forall evs w,
     run (initial_world cfg) evs = Some w -> Forall known_toast (calls w)) /\
  (forall w ev w',
     step w ev = Some w' ->
     count_calls is_toast (calls w') =
     (count_calls is_toast (calls w) +
      match ev with
      | Fetch _ (IncompleteDownload _ _) _ => 1
      | Fetch _ (Resolve _ t) _ => if decide (t = 0%Z) then 0 else 1
      | _ => 0
      end)%nat).
Proof.
  split.
  - intros evs w Hrun.
    apply (run_invariant (fun w => Forall known_toast (calls w)))
      with (evs := evs) (w := initial_world cfg); [| constructor | exact Hrun].
    intros w0 ev w1 Hk H. rewrite (step_calls _ _ _ H).
    apply Forall_app. split; [exact Hk | apply new_calls_known].
  - intros w ev w' H. rewrite (step_calls _ _ _ H), count_calls_app,
      new_calls_toasts.
    apply step_inv in H. destruct ev as [p now | | id fev now]; try reflexivity.
    destruct H as (a & -> & _). reflexivity.
Qed.

Lemma new_calls_outcomes w ev :
  count_calls is_LogDownloaded (new_calls w ev) =
  (count_calls is_setData (new_calls w ev) +
   count_calls is_LogDownloadFailed (new_calls w ev))%nat.
Proof.
  unfold new_calls. destruct ev as [p now | | id fev now].
  - destruct (effect_runs w p); [| reflexivity].
    destruct (decide (url p = EmptyString)); reflexivity.
  - reflexivity.
  - destruct (attempts w !! id) as [a |]; [| reflexivity].
    destruct fev as [n | reason e | logs t | err]; try reflexivity.
    destruct (decide (t = 0)); reflexivity.
Qed.

(** X7: every attempt that settles either sets [data] once or reports one
    'Log Download Failed', never both and never neither: over any history the
    number of 'Log Downloaded' events is the number of [setData] calls plus
    the number of 'Log Download Failed' events, and it is the number of
    settled attempts.  A failed download is counted as 'Log Downloaded' too. *)
Theorem downloaded_counts_successes_and_failures evs w :
  run (initial_world cfg) evs = Some w ->
  count_calls is_LogDownloaded (calls w) =
  (count_calls is_setData (calls w) +
   count_calls is_LogDownloadFailed (calls w))%nat /\
  (count_calls is_setData (calls w) +
   count_calls is_LogDownloadFailed (calls w))%nat = length (settled w).
Proof.
  intros Hrun.
  assert (E : count_calls is_LogDownloaded (calls w) =
              (count_calls is_setData (calls w) +
               count_calls is_LogDownloadFailed (calls w))%nat).
  { apply (run_invariant
             (fun w => count_calls is_LogDownloaded (calls w) =
                       (count_calls is_setData (calls w) +
                        count_calls is_LogDownloadFailed (calls w))%nat))
      with (evs := evs) (w := initial_world cfg); [| reflexivity | exact Hrun].
    intros w0 ev w1 IH H.
    rewrite (step_calls _ _ _ H), !count_calls_app, IH, new_calls_outcomes.
    lia. }
  split; [exact E |].
  destruct (run_balanced evs w Hrun) as (_ & _ & H3). rewrite <- E. exact H3.
Qed.

(** ** An incomplete download is not a failure *)

(** X8: [onIncompleteDownload] is not fatal to the attempt.  It changes none
    of the four state cells, it leaves every attempt as it was, so the same
    attempt still resolves afterwards and its lines become [data]; what it
    adds is one error report that carries the reason and the error it was
    given, the byte-limit toast, and one 'Log Download Incomplete' event with
    that reason and the bytes downloaded so far.  What the hook returns is
    left as it was, and while the hook is mounted the lines of the later
    resolve are the [data] it returns. *)
Theorem incomplete_download_is_not_fatal w id a now reason e :
  attempts w !! id = Some a -> a_status a = InFlight ->
  exists w1,
    step w (Fetch id (IncompleteDownload reason e) now) = Some w1 /\
    hook w1 = hook w /\ attempts w1 = attempts w /\
    calls w1 = calls w ++
      [CallReportWarning (new_Error "Incomplete download")
         (Some {| md_message := reason;
                  md_metadata := MdIncomplete e (a_url a);
                  md_name := "Log download incomplete" |});
       CallToastWarning (LOG_FILE_DOWNLOAD_TOO_LARGE_WARNING cfg) true false
         "Log not fully downloaded";
       CallSendEvent (LogDownloadIncomplete (fileSize (hook w))
                        (now - a_timeStart a) reason)] /\
    forall logs t now',
    exists w2,
      step w1 (Fetch id (Resolve logs t) now') = Some w2 /\
      data (hook w2) = Some (pop_if_last_empty logs) /\
      error (hook w2) = error (hook w) /\
      returned w1 = returned w /\
      (unmounted w = false ->
       data (returned w2) = Some (pop_if_last_empty logs)).
Proof.
  intros Ha Hs. eexists. split; [apply (step_incomplete _ _ _ _ _ _ Ha Hs) |].
  rewrite on_incomplete. fields. repeat split.
  intros logs t now'. eexists. split.
  - apply step_resolve; [exact Ha | exact Hs].
  - rewrite settle_returned, settle_fulfilled. fields.
    repeat split. intros ->. reflexivity.
Qed.

(** ** One download, from mount to cleanup *)

Lemma run_app w (l1 l2 : list (Event cfg)) :
  run w (l1 ++ l2) = run w l1 ≫= fun w1 => run w1 l2.
Proof.
  revert w. induction l1 as [| ev l1 IH]; intros w; [reflexivity |].
  change (run w ((ev :: l1) ++ l2))
    with (step w ev ≫= fun w1 => run w1 (l1 ++ l2)).
  change (run w (ev :: l1)) with (step w ev ≫= fun w1 => run w1 l1).
  destruct (step w ev) as [w1 |]; [apply IH | reflexivity].
Qed.

Lemma events_of_app (l1 l2 : list (Call cfg)) :
  events_of (l1 ++ l2) = events_of l1 ++ events_of l2.
Proof. apply omap_app. Qed.

Lemma total_cons c (chunks : list (Z * Z)) :
  total (c :: chunks) = c.1 + total chunks.
Proof. reflexivity. Qed.

Lemma run_progress chunks : forall w id a,
  attempts w !! id = Some a -> a_status a = InFlight ->
  exists w2 cs,
    run w (progress_events id chunks) = Some w2 /\
    data (hook w2) = data (hook w) /\ error (hook w2) = error (hook w) /\
    isLoading (hook w2) = isLoading (hook w) /\
    fileSize (hook w2) = fileSize (hook w) + total chunks /\
    attempts w2 = attempts w /\
    calls w2 = calls w ++ cs /\ events_of cs = [] /\
    count_calls is_toast cs = 0%nat.
Proof.
  induction chunks as [| c chunks IH]; intros w id a Ha Hs.
  - exists w, []. rewrite app_nil_r. repeat split. cbn. lia.
  - pose proof (step_fetch w id a c.2 (Progress c.1) Ha) as E.
    rewrite Hs in E. rewrite on_progress in E.
    match type of E with _ = Some ?x => set (w1 := x) in * end.
    destruct (IH w1 id a Ha Hs)
      as (w2 & cs & Hrun & Hd & He & Hl & Hf & Hat & Hc & Hev & Ht).
    exists w2, (CallSetFileSize (fileSize (hook w) + c.1) :: cs).
    split.
    { change (progress_events (cfg := cfg) id (c :: chunks))
        with (@Fetch cfg id (Progress c.1) c.2 :: progress_events id chunks).
      change (run w (?e :: ?l)) with (step w e ≫= fun w1 => run w1 l).
      rewrite E. exact Hrun. }
    rewrite Hd, He, Hl, Hf, Hat, Hc, total_cons. subst w1. fields.
    rewrite <- app_assoc. repeat split; [lia | exact Hev | exact Ht].
Qed.

(** X9: a freshly mounted hook whose one download delivers any chunks and
    then resolves without trimmed lines ends with [data] the returned lines
    (minus one trailing empty line), [error] undefined, [isLoading] false and
    [fileSize] the bytes of the chunks; it has shown no toast and sent exactly
    one event, 'Log Downloaded', carrying those bytes and the time since the
    effect ran.  If the download rejects instead, [data] stays undefined,
    [error] is the message, and the events are 'Log Download Failed' and
    then 'Log Downloaded', both carrying the bytes received before the
    failure. *)
Theorem one_download_from_mount_to_cleanup p now chunks :
  url p <> EmptyString ->
  (forall logs now',
   exists w',
     run (initial_world cfg)
       (Render p now :: progress_events 0 chunks
          ++ [Fetch 0 (Resolve logs 0) now']) = Some w' /\
     data (hook w') = Some (pop_if_last_empty logs) /\
     error (hook w') = None /\ isLoading (hook w') = false /\
     fileSize (hook w') = total chunks /\
     count_calls is_toast (calls w') = 0%nat /\
     events_of (calls w')
     = [LogDownloaded (now' - now) (total chunks) (logType p)]) /\
  (forall err now',
   exists w',
     run (initial_world cfg)
       (Render p now :: progress_events 0 chunks
          ++ [Fetch 0 (Reject err) now']) = Some w' /\
     data (hook w') = None /\
     error (hook w') = Some (err_message err) /\
     isLoading (hook w') = false /\
     fileSize (hook w') = total chunks /\
     count_calls is_toast (calls w') = 0%nat /\
     events_of (calls w')
     = [LogDownloadFailed (now' - now) (total chunks) (logType p);
        LogDownloaded (now' - now) (total chunks) (logType p)]).
Proof.
  intros Hu.
  pose proof (run_effect_fetch p now (initial_world cfg) Hu) as E1.
  match type of E1 with _ = ?x => set (w1 := x) in * end.
  set (a := {| a_url := url p; a_logType := logType p; a_timeStart := now;
               a_abortController :=
                 if isProduction cfg then Some 0%nat else None;
               a_downloadSizeLimit :=
                 default (LOG_FILE_SIZE_LIMIT cfg) (downloadSizeLimit p);
               a_status := InFlight |}).
  assert (Ha : attempts w1 !! 0%nat = Some a) by reflexivity.
  destruct (run_progress chunks w1 0%nat a Ha eq_refl)
    as (w2 & cs & Hrun & Hd & He & Hl & Hf & Hat & Hc & Hev & Ht).
  assert (Hstart : forall last,
            run (initial_world cfg)
              (Render p now :: progress_events 0 chunks ++ [last])
            = step w2 last).
  { intros last.
    change (run (initial_world cfg) (?e :: ?l))
      with (step (initial_world cfg) e ≫= fun w => run w l).
    change (step (initial_world cfg) (Render p now))
      with (Some (exec (run_effect p now) (initial_world cfg))).
    rewrite E1. cbn [mbind option_bind]. rewrite run_app, Hrun.
    cbn [mbind option_bind].
    change (run w2 [last]) with (step w2 last ≫= fun w => run w []).
    destruct (step w2 last); reflexivity. }
  rewrite <- Hat in Ha.
  assert (Hsize : fileSize (hook w2) = total chunks).
  { rewrite Hf. subst w1. cbn. lia. }
  split.
  - intros logs now'. eexists. split.
    { rewrite Hstart. apply (step_resolve _ _ _ _ _ _ Ha eq_refl). }
    rewrite settle_fulfilled. fields. rewrite He, Hc, Hsize.
    destruct (decide (0 = 0)) as [_ | Hn]; [| destruct (Hn eq_refl)].
    rewrite !count_calls_app, !events_of_app, Ht, Hev.
    repeat split.
  - intros err now'. eexists. split.
    { rewrite Hstart. apply (step_reject _ _ _ _ _ Ha). discriminate. }
    rewrite settle_rejected. fields. rewrite Hd, Hc, Hsize.
    rewrite !count_calls_app, !events_of_app, Ht, Hev.
    repeat split.
Qed.

(** ** After teardown, in production *)

Section AfterTeardown.

Hypothesis production_mode : isProduction cfg = true.

Lemma run_torn_down evs w :
  run (initial_world cfg) evs = Some w -> unmounted w = true -> torn_down w.
Proof.
  intros Hrun Hu. destruct (run_one_owner production_mode evs w Hrun)
    as [Hm Hown].
  split; [exact Hu |]. intros i a Ha.
  destruct (Hown i a Ha) as [(e & He & _) | (c & _ & _ & Hs)]; [| exact Hs].
  rewrite (Hm Hu) in He. discriminate He.
Qed.

Lemma step_torn_down w ev w' :
  torn_down w -> step w ev = Some w' ->
  torn_down w' /\
  (exists id err now, ev = Fetch id (Reject err) now) /\
  data (hook w') = data (hook w) /\ fileSize (hook w') = fileSize (hook w) /\
  count_calls is_setData (calls w') = count_calls is_setData (calls w) /\
  count_calls is_toast (calls w') = count_calls is_toast (calls w).
Proof.
  intros [Hu Hidle] H. pose proof H as H0. apply step_inv in H.
  destruct ev as [p now | | id fev now].
  - destruct H as [Hm _]. congruence.
  - destruct H as [Hm _]. congruence.
  - destruct H as (a & Ha & H).
    destruct fev; destruct H as [Hs ->];
      try (destruct (Hidle id a Ha Hs)).
    rewrite settle_rejected. fields.
    rewrite !count_calls_app. repeat split; eauto.
    intros i x Hx. apply list_lookup_insert_Some in Hx.
    destruct Hx as [(_ & <- & _) | (_ & Hx)];
      [discriminate | apply (Hidle i x Hx)].
Qed.

(** X10: in production, once the hook is torn down no fetch writes results
    any more.  After an unmount every event that can still arrive is the
    rejection of a cancelled fetch, and over any such history [data] and
    [fileSize] stay as they were at teardown, [setData] is never called and
    no toast is shown. *)
Theorem nothing_is_downloaded_after_teardown evs w evs' w' :
  run (initial_world cfg) evs = Some w -> unmounted w = true ->
  run w evs' = Some w' ->
  Forall (fun ev => exists id err now, ev = Fetch id (Reject err) now) evs' /\
  data (hook w') = data (hook w) /\ fileSize (hook w') = fileSize (hook w) /\
  count_calls is_setData (calls w') = count_calls is_setData (calls w) /\
  count_calls is_toast (calls w') = count_calls is_toast (calls w).
Proof.
  intros Hrun Hu. pose proof (run_torn_down evs w Hrun Hu) as Ht.
  clear Hrun Hu. revert w Ht.
  induction evs' as [| ev evs' IH]; intros w Ht Hrun'.
  - apply run_nil in Hrun'. subst w'. repeat split. constructor.
  - apply run_cons in Hrun'. destruct Hrun' as (w1 & E & Hrun').
    destruct (step_torn_down w ev w1 Ht E)
      as (Ht1 & Hev & Hd & Hf & Hs & Hto).
    destruct (IH w1 Ht1 Hrun') as (Hall & Hd' & Hf' & Hs' & Hto').
    rewrite Hd', Hf', Hs', Hto'. repeat split; auto.
Qed.

End AfterTeardown.

End MoreProperties.

(** * [setScope] and [sendError] *)

Section ScopeProperties.

Context {Metadata : Type}.
Implicit Types (b : Scope.Browser Metadata).

(** X11: [sendError] captures the error exactly once, inside one [withScope]
    callback, after that scope was given the user id found in [localStorage],
    the severity as level and, only when metadata was passed, the metadata as
    context 'metadata'; it reads [localStorage] and does not change it. *)
Theorem sendError_captures_once b err severity metadata :
  severity <> EmptyString ->
  Scope.run_B (Scope.sendError err severity metadata) b =
  {| Scope.localStorage := Scope.localStorage b;
     Scope.sdk_calls :=
       (Scope.sdk_calls b ++
        [Scope.WithScope
           (Scope.SetUser (Scope.localStorage b !! "userId")
            :: Scope.SetLevel severity
            :: match metadata with
               | Some m => [Scope.SetContext "metadata" m]
               | None => []
               end ++ [Scope.CaptureException err])])%list |}.
Proof.
  intros Hs. unfold Scope.run_B, Scope.sendError, Scope.withScope,
    Scope.setScope, Scope.getItem, Scope.sdk, mbind, mret, Scope.B_bind,
    Scope.B_ret.
  cbn. destruct (decide (severity = EmptyString)); [contradiction |].
  destruct metadata; reflexivity.
Qed.

(** X12: [setScope] always sets the user, from the [userId] key of
    [localStorage]: a stored id is passed on as it is, also the empty one,
    and a missing key gives an undefined id.  Called without options, as the
    error boundary does, it makes no other call; an empty level is not set. *)
Theorem setScope_reads_the_user_id :
  (forall (st : gmap string string) v (cs : list (Scope.SdkCall Metadata)),
     Scope.run_B Scope.beforeCapture
       {| Scope.localStorage := <["userId" := v]> st; Scope.sdk_calls := cs |}
     = {| Scope.localStorage := <["userId" := v]> st;
          Scope.sdk_calls := (cs ++ [Scope.SetUser (Some v)])%list |}) /\
  (forall (st : gmap string string) (cs : list (Scope.SdkCall Metadata)),
     Scope.run_B Scope.beforeCapture
       {| Scope.localStorage := delete "userId" st; Scope.sdk_calls := cs |}
     = {| Scope.localStorage := delete "userId" st;
          Scope.sdk_calls := (cs ++ [Scope.SetUser None])%list |}) /\
  (forall b o,
   exists rest,
     Scope.run_B (Scope.setScope o) b
     = {| Scope.localStorage := Scope.localStorage b;
          Scope.sdk_calls :=
            (Scope.sdk_calls b
             ++ Scope.SetUser (Scope.localStorage b !! "userId") :: rest)%list |}
     /\ Forall (fun c => forall id, c <> Scope.SetUser id) rest) /\
  (forall b c,
     Scope.run_B (Scope.setScope {| Scope.level := Some EmptyString;
                                    Scope.context := c |}) b
     = Scope.run_B (Scope.setScope {| Scope.level := None;
                                      Scope.context := c |}) b).
Proof.
  unfold Scope.run_B, Scope.beforeCapture, Scope.setScope, Scope.getItem,
    Scope.sdk, mbind, mret, Scope.B_bind, Scope.B_ret.
  split; [| split; [| split]].
  - intros st v cs. cbn. rewrite lookup_insert_eq. reflexivity.
  - intros st cs. cbn. rewrite lookup_delete_eq. reflexivity.
  - intros b [[l |] [c |]]; cbn;
      try destruct (decide (l = EmptyString)); cbn;
      rewrite <- ?app_assoc; eexists; (split; [reflexivity |]);
      repeat constructor; discriminate.
  - intros b c. cbn. reflexivity.
Qed.

End ScopeProperties.

(** * The further properties at concrete histories *)

Lemma results_are_never_reset_witness :
  run failed_world recovery_history = Some recovered_world /\
  is_Some (error (hook failed_world)) /\
  data (hook recovered_world) = Some ["x"] /\
  is_Some (error (hook recovered_world)).
Proof.
  assert (Hrun : run failed_world recovery_history = Some recovered_world)
    by (vm_compute; reflexivity).
  assert (Herr : is_Some (error (hook failed_world)))
    by (exists "Failed to fetch"; reflexivity).
  split; [exact Hrun |]. split; [exact Herr |]. split; [reflexivity |].
  destruct (results_are_never_reset (cfg := production)) as (_ & _ & _ & H).
  destruct (H _ _ _ Hrun) as [_ He].
  exact (He Herr).
Defined.

Lemma loading_means_pending_witness :
  run (initial_world production)
    [Render (props production "task" "a") 0;
     Render (props production "task" "b") 1] = Some superseded_world /\
  unmounted superseded_world = false /\
  isLoading (returned superseded_world) = true /\
  pending superseded_world.
Proof.
  assert (Hrun : run (initial_world production)
                   [Render (props production "task" "a") 0;
                    Render (props production "task" "b") 1]
                 = Some superseded_world) by (vm_compute; reflexivity).
  split; [exact Hrun |]. split; [reflexivity |]. split; [reflexivity |].
  destruct (loading_means_pending _ _ Hrun eq_refl) as [H _].
  exact (H eq_refl).
Defined.

Lemma attempt_keeps_the_props_it_started_with_witness :
  url (props production "task" "a") <> EmptyString /\
  unmounted (initial_world production) = false /\
  url (props production "test" "a") = url (props production "task" "a") /\
  settles InFlight (Resolve ["x"] 0) = true /\
  exists w1 w2 pre,
    step (initial_world production) (Render (props production "task" "a") 0)
    = Some w1 /\
    step w1 (Render (props production "test" "a") 1) = Some w1 /\
    step w1 (Fetch 0 (Resolve ["x"] 0) 7) = Some w2 /\
    calls w2 = (calls w1 ++ pre ++
      [CallLeaveBreadcrumb "useLogDownloader" (BcFinished "some bytes" 7 "a")
         SentryBreadcrumb_HTTP;
       CallSendEvent (@LogDownloaded production 7 0 "task");
       CallSetIsLoading false])%list.
Proof.
  split; [discriminate |]. split; [reflexivity |]. split; [reflexivity |].
  split; [reflexivity |].
  apply (attempt_keeps_the_props_it_started_with (initial_world production)
           (props production "task" "a") (props production "test" "a")
           0 1 7 (Resolve ["x"] 0)).
  - discriminate.
  - reflexivity.
  - intros e0 He. discriminate He.
  - reflexivity.
  - reflexivity.
Defined.

Lemma development_never_cancels_witness :
  isProduction development = false /\
  run (initial_world development)
    [Render (props development "task" "a") 0;
     Render (props development "task" "b") 1] = Some development_superseded /\
  unmounted development_superseded = false /\
  attempts development_superseded !! 0%nat = Some development_first_attempt /\
  a_status development_first_attempt = InFlight /\
  exists w',
    step development_superseded (Fetch 0 (Resolve ["old"] 0) 5) = Some w' /\
    data (returned w') = Some ["old"].
Proof.
  assert (Hrun : run (initial_world development)
                   [Render (props development "task" "a") 0;
                    Render (props development "task" "b") 1]
                 = Some development_superseded) by (vm_compute; reflexivity).
  split; [reflexivity |]. split; [exact Hrun |].
  repeat (split; [reflexivity |]).
  destruct (development_never_cancels (cfg := development) eq_refl _ _ Hrun)
    as (_ & _ & _ & H).
  destruct (H 0%nat development_first_attempt ["old"] 0 5 eq_refl eq_refl
              eq_refl) as (w' & E & Hd & _).
  exists w'. split; [exact E | exact Hd].
Defined.

Lemma installed_effect_is_not_aborted_witness :
  run (initial_world production)
    [Render (props production "task" "a") 0;
     Render (props production "task" "b") 1] = Some superseded_world /\
  effect superseded_world
  = Some {| eff_url := "b"; eff_abortController := 1 |} /\
  1%nat ∉ aborted superseded_world.
Proof.
  assert (Hrun : run (initial_world production)
                   [Render (props production "task" "a") 0;
                    Render (props production "task" "b") 1]
                 = Some superseded_world) by (vm_compute; reflexivity).
  split; [exact Hrun |]. split; [reflexivity |].
  destruct (installed_effect_is_not_aborted _ _
              {| eff_url := "b"; eff_abortController := 1 |} Hrun eq_refl)
    as [H _].
  exact H.
Defined.

Lemma toasts_are_the_two_warnings_witness :
  run (initial_world production) truncated_history = Some truncated_world /\
  count_calls is_toast (calls truncated_world) = 2%nat /\
  Forall known_toast (calls truncated_world).
Proof.
  assert (Hrun : run (initial_world production) truncated_history
                 = Some truncated_world) by (vm_compute; reflexivity).
  split; [exact Hrun |]. split; [reflexivity |].
  destruct (toasts_are_the_two_warnings (cfg := production)) as [H _].
  apply (H _ _ Hrun).
Defined.

Lemma downloaded_counts_successes_and_failures_witness :
  run (initial_world production)
    ([Render (props production "task" "a") 0;
      Fetch 0 (Reject NetworkError) 1] ++ recovery_history)%list
  = Some recovered_world /\
  count_calls is_setData (calls recovered_world) = 1%nat /\
  count_calls is_LogDownloadFailed (calls recovered_world) = 1%nat /\
  length (settled recovered_world) = 2%nat /\
  count_calls is_LogDownloaded (calls recovered_world) =
  (count_calls is_setData (calls recovered_world) +
   count_calls is_LogDownloadFailed (calls recovered_world))%nat.
Proof.
  assert (Hrun : run (initial_world production)
                   ([Render (props production "task" "a") 0;
                     Fetch 0 (Reject NetworkError) 1] ++ recovery_history)%list
                 = Some recovered_world) by (vm_compute; reflexivity).
  split; [exact Hrun |]. repeat (split; [reflexivity |]).
  destruct (downloaded_counts_successes_and_failures _ _ Hrun) as [H _].
  exact H.
Defined.

Lemma incomplete_download_is_not_fatal_witness :
  attempts first_attempt_world !! 0%nat = Some first_attempt /\
  a_status first_attempt = InFlight /\
  exists w1,
    step first_attempt_world
      (Fetch 0 (IncompleteDownload "File size limit exceeded" None) 3)
    = Some w1 /\
    hook w1 = hook first_attempt_world /\
    attempts w1 = attempts first_attempt_world.
Proof.
  split; [reflexivity |]. split; [reflexivity |].
  destruct (incomplete_download_is_not_fatal first_attempt_world 0%nat
              first_attempt 3 "File size limit exceeded" None eq_refl eq_refl)
    as (w1 & E & Hh & Ha & _).
  exists w1. split; [exact E |]. split; [exact Hh | exact Ha].
Defined.

Lemma one_download_from_mount_to_cleanup_witness :
  url (props production "task" "a") <> EmptyString /\
  exists w',
    run (initial_world production)
      (Render (props production "task" "a") 0
       :: progress_events 0 [(10, 1); (5, 2)]
       ++ [Fetch 0 (Resolve ["x"; EmptyString] 0) 3])%list = Some w' /\
    data (hook w') = Some (pop_if_last_empty ["x"; EmptyString]) /\
    error (hook w') = None /\ isLoading (hook w') = false /\
    fileSize (hook w') = total [(10, 1); (5, 2)] /\
    count_calls is_toast (calls w') = 0%nat /\
    events_of (calls w')
    = [@LogDownloaded production (3 - 0) (total [(10, 1); (5, 2)]) "task"].
Proof.
  split; [discriminate |].
  assert (Hu : url (props production "task" "a") <> EmptyString)
    by discriminate.
  destruct (one_download_from_mount_to_cleanup
              (props production "task" "a") 0 [(10, 1); (5, 2)] Hu)
    as [H _].
  exact (H ["x"; EmptyString] 3).
Defined.

Lemma nothing_is_downloaded_after_teardown_witness :
  isProduction production = true /\
  run (initial_world production)
    [Render (props production "task" "a") 0; Unmount] = Some unmounted_world /\
  unmounted unmounted_world = true /\
  exists w',
    run unmounted_world [Fetch 0 (Reject AbortError) 2] = Some w' /\
    data (hook w') = data (hook unmounted_world) /\
    fileSize (hook w') = fileSize (hook unmounted_world).
Proof.
  assert (Hrun : run (initial_world production)
                   [Render (props production "task" "a") 0; Unmount]
                 = Some unmounted_world) by (vm_compute; reflexivity).
  split; [reflexivity |]. split; [exact Hrun |]. split; [reflexivity |].
  assert (Hrun' : run unmounted_world [Fetch 0 (Reject AbortError) 2]
                  = Some (default unmounted_world
                            (run unmounted_world
                               [Fetch 0 (Reject AbortError) 2])))
    by (vm_compute; reflexivity).
  eexists. split; [exact Hrun' |].
  destruct (nothing_is_downloaded_after_teardown (cfg := production) eq_refl
              _ _ _ _ Hrun eq_refl Hrun') as (_ & Hd & Hf & _).
  split; [exact Hd | exact Hf].
Defined.

Lemma sendError_captures_once_witness :
  "warning" <> EmptyString /\
  Scope.run_B (Scope.sendError NetworkError "warning" (Some "url: a"))
    logged_in
  = {| Scope.localStorage := {["userId" := "u42"]};
       Scope.sdk_calls :=
         [Scope.WithScope
            [Scope.SetUser (Some "u42"); Scope.SetLevel "warning";
             Scope.SetContext "metadata" "url: a";
             Scope.CaptureException NetworkError]] |}.
Proof.
  split; [discriminate |].
  assert (Hs : "warning" <> EmptyString) by discriminate.
  exact (sendError_captures_once logged_in NetworkError "warning"
           (Some "url: a") Hs).
Defined.
